(** * Affluences library harvester: text matching, seat extraction, pagination

    A shallow embedding of [main.py].  Python [str] values are sequences of
    Unicode code points; the functions of [unicodedata], [str.lower], the
    [re] class [\d] and [int] read the interpreter's character database,
    which is kept here as a record of tables ([UnicodeData]). *)

From Stdlib Require Import List NArith ZArith QArith Bool String Ascii Lia.
Import ListNotations.

Local Open Scope N_scope.

(** ** Text *)

Definition codepoint := N.
Definition text := list codepoint.

(** An ASCII literal of the source as a sequence of code points. *)
Definition lit (s : string) : text := map N_of_ascii (list_ascii_of_string s).

(** Truthiness of an optional [str]: [None] and the empty string are falsy. *)
Definition truthy (s : option text) : bool :=
  match s with
  | Some (_ :: _) => true
  | _ => false
  end.

(** [a or b] on optional strings. *)
Definition py_or (a b : option text) : option text :=
  if truthy a then a else b.

(** [needle in hay] on [str]: substring search. *)
Fixpoint starts_with (p s : text) : bool :=
  match p, s with
  | [], _ => true
  | _ :: _, [] => false
  | a :: p', b :: s' => (a =? b) && starts_with p' s'
  end.

Fixpoint contains (needle hay : text) : bool :=
  starts_with needle hay ||
  match hay with
  | [] => false
  | _ :: rest => contains needle rest
  end.

(** [p] occurs in [s]: the meaning of the search. *)
Definition occurs (p s : text) : Prop :=
  exists before after, s = before ++ p ++ after.

(** ** The character database *)

Module Unicode.

(** The tables the interpreter ships.  [decomposition_rows] holds the full
    compatibility decomposition of every code point that has one (Hangul
    syllables apart, which are decomposed by arithmetic);
    [combining_rows] the canonical combining class of every range of
    non-starters; [lower_rows] the full lower-case mapping of every code
    point it changes; [cased_rows] and [case_ignorable_rows] the two
    properties the final-sigma rule reads; [decimal_zero_rows] the digit
    zero of every run of ten decimal digits (category Nd). *)
Record UnicodeData := {
  decomposition_rows : list (codepoint * text);
  combining_rows : list (codepoint * codepoint * N);
  lower_rows : list (codepoint * text);
  cased_rows : list (codepoint * codepoint);
  case_ignorable_rows : list (codepoint * codepoint);
  decimal_zero_rows : list codepoint
}.

Fixpoint assoc {A : Type} (c : codepoint) (rows : list (codepoint * A)) : option A :=
  match rows with
  | [] => None
  | (k, v) :: rest => if k =? c then Some v else assoc c rest
  end.

Definition in_ranges (c : codepoint) (rows : list (codepoint * codepoint)) : bool :=
  existsb (fun r => (fst r <=? c) && (c <=? snd r)) rows.

Definition space : codepoint := 0x20.
Definition capital_sigma : codepoint := 0x3A3.
Definition small_sigma : codepoint := 0x3C3.
Definition small_final_sigma : codepoint := 0x3C2.

(** Hangul syllables, decomposed by the arithmetic of the standard. *)
Definition SBase : N := 0xAC00.
Definition LBase : N := 0x1100.
Definition VBase : N := 0x1161.
Definition TBase : N := 0x11A7.
Definition TCount : N := 28.
Definition NCount : N := 588.
Definition SCount : N := 11172.

Definition is_hangul_syllable (c : codepoint) : bool :=
  (SBase <=? c) && (c <? SBase + SCount).

Definition hangul_decomposition (c : codepoint) : text :=
  let SIndex := c - SBase in
  let L := LBase + SIndex / NCount in
  let V := VBase + (SIndex mod NCount) / TCount in
  let T := TBase + SIndex mod TCount in
  if T =? TBase then [L; V] else [L; V; T].

Section Database.

Variable U : UnicodeData.

(** [unicodedata.combining(ch)]: the canonical combining class, 0 for a
    starter. *)
Definition combining (c : codepoint) : N :=
  match find (fun r => (fst (fst r) <=? c) && (c <=? snd (fst r))) (combining_rows U) with
  | Some r => snd r
  | None => 0
  end.

(** Full compatibility decomposition of one code point. *)
Definition decomposition (c : codepoint) : text :=
  if is_hangul_syllable c then hangul_decomposition c
  else match assoc c (decomposition_rows U) with
       | Some d => d
       | None => [c]
       end.

(** Canonical ordering: each non-starter is moved left past the
    non-starters of a strictly greater class that precede it.  The
    accumulator holds the text placed so far, last code point first. *)
Fixpoint insert_mark (c : codepoint) (placed_rev : text) : text :=
  match placed_rev with
  | [] => [c]
  | e :: rest =>
      if (combining e =? 0) || (combining e <=? combining c)
      then c :: placed_rev
      else e :: insert_mark c rest
  end.

Definition place (placed_rev : text) (c : codepoint) : text :=
  if combining c =? 0 then c :: placed_rev else insert_mark c placed_rev.

Definition canonical_order (s : text) : text :=
  rev (fold_left place s []).

(** [unicodedata.normalize("NFKD", s)]. *)
Definition normalize_NFKD (s : text) : text :=
  canonical_order (flat_map decomposition s).

(** [str.lower]: the full lower-case mapping of each code point, capital
    sigma apart, which becomes a final sigma when a cased letter precedes
    it and none follows (case-ignorable code points skipped on both
    sides). *)
Definition cased (c : codepoint) : bool := in_ranges c (cased_rows U).
Definition case_ignorable (c : codepoint) : bool := in_ranges c (case_ignorable_rows U).

Definition to_lower_full (c : codepoint) : text :=
  match assoc c (lower_rows U) with
  | Some l => l
  | None => [c]
  end.

Definition first_not_ignorable (s : text) : option codepoint :=
  find (fun c => negb (case_ignorable c)) s.

Definition handle_capital_sigma (before_rev after : text) : codepoint :=
  let preceded :=
    match first_not_ignorable before_rev with
    | Some c => cased c
    | None => false
    end in
  let followed :=
    match first_not_ignorable after with
    | Some c => cased c
    | None => false
    end in
  if preceded && negb followed then small_final_sigma else small_sigma.

Fixpoint lower_from (before_rev s : text) : text :=
  match s with
  | [] => []
  | c :: rest =>
      (if c =? capital_sigma then [handle_capital_sigma before_rev rest]
       else to_lower_full c) ++ lower_from (c :: before_rev) rest
  end.

Definition lower (s : text) : text := lower_from [] s.

(** The class [\d] of [re] on [str] patterns and the digit value [int]
    gives it: the decimal digits of every script. *)
Definition decimal (c : codepoint) : option N :=
  match find (fun z => (z <=? c) && (c <? z + 10)) (decimal_zero_rows U) with
  | Some z => Some (c - z)
  | None => None
  end.

Definition is_decimal (c : codepoint) : bool :=
  match decimal c with
  | Some _ => true
  | None => false
  end.

(** ** Consistency of the tables

    What the standard guarantees of its own data, as a check that runs on
    the tables: decompositions are full (no code point of a decomposition
    decomposes again, and the conjoining jamo that Hangul syllables
    decompose into have no row), and lower-casing a decomposed starter
    yields decomposed starters that lower-casing leaves alone. *)
Definition has_row {A : Type} (c : codepoint) (rows : list (codepoint * A)) : bool :=
  match assoc c rows with
  | Some _ => true
  | None => false
  end.

Definition stable (c : codepoint) : bool :=
  negb (is_hangul_syllable c) && negb (has_row c (decomposition_rows U)).

Definition starter (c : codepoint) : bool := combining c =? 0.

Definition lower_fixed (c : codepoint) : bool :=
  stable c && starter c && negb (has_row c (lower_rows U)) && negb (c =? capital_sigma).

Definition jamo (c : codepoint) : bool := (LBase <=? c) && (c <=? 0x11FF).

Definition check_decomposition : bool :=
  forallb (fun row => negb (jamo (fst row)) && forallb stable (snd row))
          (decomposition_rows U).

Definition check_lower : bool :=
  forallb (fun row =>
             (fst row =? capital_sigma)
             || negb (stable (fst row) && starter (fst row))
             || forallb lower_fixed (snd row))
          (lower_rows U).

Definition check_sigma : bool :=
  forallb (fun c => stable c && starter c && negb (has_row c (lower_rows U)))
          [small_final_sigma; small_sigma].

Definition consistent : bool :=
  check_decomposition && check_lower && check_sigma.

(** A code point that normalisation keeps as it is and that the
    final-sigma rule neither skips nor takes for a letter. *)
Definition plain (c : codepoint) : bool :=
  lower_fixed c && negb (cased c) && negb (case_ignorable c).

End Database.

End Unicode.

Import Unicode.

(** ** Exceptions *)

(** The argument of [fetch_site_detail]: a non-empty slug, else whatever
    the [id] key gives. *)
Inductive SiteKey : Type :=
| KeySlug (s : text)
| KeyId (n : Z)
| KeyNone.

(** What the program raises: the two [RuntimeError]s it builds, what the
    session and the JSON decoder raise, the [ValueError] of [int] on a
    run of digits longer than the interpreter allows, the
    [AttributeError] of a [get] called on [None], and the [TypeError] of
    a [+] between a string and [None]. *)
Inductive Exception : Type :=
| ListRequestFailed (page : nat) (status_code : Z) (body : text)
| DetailRequestFailed (key : SiteKey) (status_code : Z)
| TransportError (e : text)
| JSONDecodeError
| ValueError
| AttributeError
| TypeError.

(** A call returns a value ([inr]) or raises ([inl]); an exception raised
    by a call goes through the caller. *)
Definition bind {A B : Type} (c : Exception + A) (k : A -> Exception + B)
  : Exception + B :=
  match c with
  | inl e => inl e
  | inr a => k a
  end.

Notation "x <- c ;; k" := (bind c (fun x => k))
  (at level 61, c at next level, right associativity).

(** ** The program *)

Section Program.

Variable U : UnicodeData.

(** [norm_text], lines 31-37. *)
Definition norm_text (s : option text) : text :=
  match s with
  | Some (c :: s') =>
      let s := normalize_NFKD U (c :: s') in
      let s := filter (fun ch => combining U ch =? 0) s in
      lower U s
  | _ => []
  end.

(** [re.search(r"\d+", t)]: the leftmost match, taken as long as it goes;
    the result is [m.group()]. *)
Fixpoint take_decimal (t : text) : text :=
  match t with
  | c :: rest => if is_decimal U c then c :: take_decimal rest else []
  | [] => []
  end.

Fixpoint re_search_digits (t : text) : option text :=
  match t with
  | [] => None
  | c :: rest =>
      if is_decimal U c then Some (c :: take_decimal rest)
      else re_search_digits rest
  end.

(** The number a run of decimal digits writes in base ten. *)
Definition digit_value (c : codepoint) : Z :=
  match decimal U c with
  | Some d => Z.of_N d
  | None => 0%Z
  end.

Definition int_value (run : text) : Z :=
  fold_left (fun acc c => (10 * acc + digit_value c)%Z) run 0%Z.

(** The most digits [int] converts, by the interpreter's default
    ([sys.get_int_max_str_digits()]); leading zeros count. *)
Definition int_max_str_digits : nat := 4300.

(** [int] on a run of decimal digits: the number the run writes, or
    [ValueError] for a run longer than the limit. *)
Definition py_int (run : text) : Exception + Z :=
  if (int_max_str_digits <? List.length run)%nat then inl ValueError
  else inr (int_value run).

Definition narrow_nbsp : codepoint := 0x202F.

(** [s.replace] of line 43: every U+202F is dropped. *)
Definition replace_narrow_nbsp (s : text) : text :=
  filter (fun c => negb (c =? narrow_nbsp)) s.

(** [extract_first_int], lines 40-44. *)
Definition extract_first_int (s : option text) : Exception + option Z :=
  match s with
  | Some (c :: s') =>
      match re_search_digits (replace_narrow_nbsp (c :: s')) with
      | Some m => n <- py_int m ;; inr (Some n)
      | None => inr None
      end
  | _ => inr None
  end.

(** The literal of line 51, with its precomposed U+00EE. *)
Definition ile_accented : text := 0xEE :: lit "le".

(** [is_ile_de_france], lines 47-54. *)
Definition is_ile_de_france (region_string : option text) : bool :=
  let r := norm_text region_string in
  (contains (lit "ile") r && contains (lit "france") r)
  || (contains ile_accented r && contains (lit "france") r)
  || contains (lit "ile-de-france") r
  || contains (lit "ile de france") r.

(** An entry of [infos]: a mapping whose keys [title] and [description],
    when present, hold text.  [None] is a missing key; the function treats
    a key that holds null the same way. *)
Record InfoEntry := {
  title : option text;
  description : option text
}.

(** [info.get(key, default)] with the empty string for default. *)
Definition get_text (field : option text) : text :=
  match field with
  | Some t => t
  | None => []
  end.

Definition keywords : list text :=
  [ lit "available";
    lit "available seats";
    lit "available places";
    lit "places disponibles";
    lit "places disponibles";
    lit "places";
    lit "places disponibles (approx)";
    lit "places disponibles (approx.)";
    lit "places disponibles approximatives";
    lit "places disponibles approximative" ].

(** The two keywords every keyword of the list contains. *)
Definition core_keywords : list text := [lit "available"; lit "places"].

(** The f-string of line 106. *)
Definition combined (info : InfoEntry) : text :=
  norm_text (Some (get_text (title info))) ++ lit " "
  ++ norm_text (Some (get_text (description info))).

(** The argument of both calls of [extract_first_int], lines 109-111 and
    115. *)
Definition description_or_title (info : InfoEntry) : option text :=
  py_or (Some (get_text (description info))) (Some (get_text (title info))).

(** The test of line 108 holds for some keyword of the list. *)
Definition keyword_match (kws : list text) (info : InfoEntry) : bool :=
  existsb (fun kw => contains kw (combined info)) kws.

(** The extraction returns, and returns [None]. *)
Definition finds_nothing (r : Exception + option Z) : bool :=
  match r with
  | inr None => true
  | _ => false
  end.

(** An entry on which the first loop stops: a keyword is found and the
    extraction gives an integer, or raises. *)
Definition hit (kws : list text) (info : InfoEntry) : bool :=
  keyword_match kws info &&
  negb (finds_nothing (extract_first_int (description_or_title info))).

(** The loop over the keywords for one entry, lines 107-113: [Some n] when
    it returns [n], [None] when it runs to its end. *)
Fixpoint keyword_loop (kws : list text) (info : InfoEntry) : Exception + option Z :=
  match kws with
  | [] => inr None
  | kw :: kws' =>
      if contains kw (combined info) then
        n <- extract_first_int (description_or_title info) ;;
        match n with
        | Some n => inr (Some n)
        | None => keyword_loop kws' info
        end
      else keyword_loop kws' info
  end.

(** The first loop over the entries, lines 103-113. *)
Fixpoint keyword_pass (kws : list text) (infos : list InfoEntry) : Exception + option Z :=
  match infos with
  | [] => inr None
  | info :: rest =>
      n <- keyword_loop kws info ;;
      match n with
      | Some n => inr (Some n)
      | None => keyword_pass kws rest
      end
  end.

(** The second loop, lines 114-117. *)
Fixpoint fallback_pass (infos : list InfoEntry) : Exception + option Z :=
  match infos with
  | [] => inr None
  | info :: rest =>
      n <- extract_first_int (description_or_title info) ;;
      match n with
      | Some n => inr (Some n)
      | None => fallback_pass rest
      end
  end.

Definition seats_with (kws : list text) (infos : option (list InfoEntry)) : Exception + option Z :=
  match infos with
  | Some (i :: rest) =>
      n <- keyword_pass kws (i :: rest) ;;
      match n with
      | Some n => inr (Some n)
      | None => fallback_pass (i :: rest)
      end
  | _ => inr None
  end.

(** [get_available_seats_from_infos], lines 88-118. *)
Definition get_available_seats_from_infos (infos : option (list InfoEntry)) : Exception + option Z :=
  seats_with keywords infos.

End Program.

(** ** The payloads

    The mappings of the remote payload, read as records.  Where the
    program treats a missing key and a null alike (it tests the value, or
    only carries it along), the field is an option, [None] for both.
    Where it does not (it calls [get] on the value, or adds it to a
    string), the field is a [Slot], which tells the missing key from the
    null.  A value that is neither is of the field's type.  Numbers the
    program only carries along (coordinates, occupancy, distance) are
    rationals. *)

Definition number := Q.

Inductive Slot (A : Type) : Type :=
| Missing
| Null
| Holds (v : A).

Arguments Missing {A}.
Arguments Null {A}.
Arguments Holds {A} v.

Record Address := {
  region : option text;
  route : Slot text;
  city : Slot text
}.

Record Coordinates := {
  latitude : option number;
  longitude : option number
}.

Record Location := {
  address : Slot Address;
  coordinates : Slot Coordinates
}.

Record Forecast := {
  occupancy : option number
}.

(** A site mapping, as the list endpoint (summary) or the detail endpoint
    returns it. *)
Record Site := {
  id : option Z;
  slug : option text;
  primary_name : option text;
  concat_name : option text;
  location : Slot Location;
  estimated_distance : option number;
  infos : option (list InfoEntry);
  current_forecast : Slot Forecast;
  url : option text
}.

(** The empty mapping, default of the [get] calls. *)
Definition empty_address : Address :=
  {| region := None; route := Missing; city := Missing |}.

Definition empty_location : Location :=
  {| address := Missing; coordinates := Missing |}.

Definition empty_forecast : Forecast :=
  {| occupancy := None |}.

Definition empty_site : Site :=
  {| id := None; slug := None; primary_name := None; concat_name := None;
     location := Missing; estimated_distance := None; infos := None;
     current_forecast := Missing; url := None |}.

(** [m.get(key, default)]: the value under the key, the default for a
    missing key, [None] for null. *)
Definition get_default {A : Type} (default : A) (field : Slot A) : option A :=
  match field with
  | Missing => Some default
  | Null => None
  | Holds v => Some v
  end.

(** The value a [get] is called on: [None] has no [get]. *)
Definition receiver {A : Type} (v : option A) : Exception + A :=
  match v with
  | Some m => inr m
  | None => inl AttributeError
  end.

(** The dictionary appended to [enriched], lines 162-175; its [address]
    is [None] when the summary holds null there. *)
Module Enriched.
Record t := {
  id : option Z;
  slug : option text;
  name : option text;
  address : option Address;
  latitude : option number;
  longitude : option number;
  available_seats : option Z;
  occupancy_percent : option number;
  estimated_distance_m : option number;
  detail_url : option text
}.
End Enriched.

(** ** The collaborators

    What a call on the session gives back: it raises (connection error,
    timeout), or it returns a response with a status, a body, and the
    decoding of the body when it is JSON. *)
Inductive Reply (A : Type) : Type :=
| Unreachable (e : text)
| Response (status_code : Z) (body : text) (json : option A).

Arguments Unreachable {A} e.
Arguments Response {A} status_code body json.

(** [payload_json["data"]["results"]]: [Missing] when one of the two keys
    is missing, and when [results] holds null, which line 69 takes as it
    takes the default; [Null] when [data] holds null. *)
Record ListPayload := {
  data_results : Slot (list Site)
}.

(** What [payload["data"]] holds. *)
Record DetailPayload := {
  data : Slot Site
}.

Inductive Outcome (A : Type) : Type :=
| Returned (a : A)
| Raised (e : Exception)
| OutOfFuel.

Arguments Returned {A} a.
Arguments Raised {A} e.
Arguments OutOfFuel {A}.

(** The state of the loop of [fetch_all_library_sites]; [posted] logs the
    pages requested so far, oldest first. *)
Record FetchState := {
  page : nat;
  all_sites : list Site;
  posted : list nat
}.

Section Pipeline.

Variable U : UnicodeData.

(** The list endpoint, by page requested, and the detail endpoint, by key. *)
Variable post : nat -> Reply ListPayload.
Variable get : SiteKey -> Reply DetailPayload.

(** The [while True] of lines 60-74, one iteration per unit of fuel.  On
    a null [data] the second [get] of line 68 raises.  The pause of line
    74 takes time and changes nothing. *)
Fixpoint fetch_loop (fuel : nat) (st : FetchState) : Outcome (list Site) * list nat :=
  match fuel with
  | O => (OutOfFuel, posted st)
  | S fuel' =>
      let log := posted st ++ [page st] in
      match post (page st) with
      | Unreachable e => (Raised (TransportError e), log)
      | Response status_code body json =>
          if negb (status_code =? 200)%Z
          then (Raised (ListRequestFailed (page st) status_code body), log)
          else
            match json with
            | None => (Raised JSONDecodeError, log)
            | Some payload_json =>
                match data_results payload_json with
                | Null => (Raised AttributeError, log)
                | Holds (r :: results) =>
                    fetch_loop fuel'
                      {| page := S (page st);
                         all_sites := all_sites st ++ r :: results;
                         posted := log |}
                | _ => (Returned (all_sites st), log)
                end
            end
      end
  end.

(** [fetch_all_library_sites], lines 57-75: the outcome and the pages
    posted. *)
Definition fetch_all_library_sites (fuel : nat) : Outcome (list Site) * list nat :=
  fetch_loop fuel {| page := 0; all_sites := []; posted := [] |}.

(** [fetch_site_detail], lines 78-85.  What it returns is the value under
    [data]: a mapping, or [None] when the key holds null. *)
Definition fetch_site_detail (key : SiteKey) : Exception + option Site :=
  match get key with
  | Unreachable e => inl (TransportError e)
  | Response status_code _ json =>
      if negb (status_code =? 200)%Z
      then inl (DetailRequestFailed key status_code)
      else
        match json with
        | None => inl JSONDecodeError
        | Some payload => inr (get_default empty_site (data payload))
        end
  end.

(** The value of line 129, and of line 167:
    [s.get("location", {}).get("address", {})]. *)
Definition site_address (s : Site) : Exception + option Address :=
  loc <- receiver (get_default empty_location (location s)) ;;
  inr (get_default empty_address (address loc)).

(** Line 130. *)
Definition site_region (s : Site) : Exception + option text :=
  addr <- site_address s ;;
  addr <- receiver addr ;;
  inr (py_or (Some (get_text (region addr))) (Some [])).

(** The test of lines 129-131 on one site. *)
Definition in_ile_de_france (s : Site) : Exception + bool :=
  region <- site_region s ;;
  inr (is_ile_de_france U region).

(** The loop of lines 127-132. *)
Fixpoint libraries_of (all_sites : list Site) : Exception + list Site :=
  match all_sites with
  | [] => inr []
  | s :: rest =>
      keep <- in_ile_de_france s ;;
      libraries <- libraries_of rest ;;
      inr (if keep then s :: libraries else libraries)
  end.

(** Line 141: [s.get("slug") or s.get("id")]. *)
Definition site_key (s : Site) : SiteKey :=
  if truthy (slug s) then
    match slug s with
    | Some t => KeySlug t
    | None => KeyNone
    end
  else
    match id s with
    | Some n => KeyId n
    | None => KeyNone
    end.

(** [s.get("infos", [])]. *)
Definition get_infos (s : Site) : list InfoEntry :=
  match infos s with
  | Some l => l
  | None => []
  end.

(** The record built from a summary and the detail source chosen for it,
    lines 149-175; the detail source is [None] when the detail endpoint
    gave null for [data].  The test of line 158 fails on a missing, a null
    and an empty [coordinates] mapping; all leave the two fields [None],
    which is also what reading an empty mapping gives. *)
Definition assemble (s : Site) (detail : option Site) : Exception + Enriched.t :=
  detail <- receiver detail ;;
  let infos :=
    match get_infos detail with
    | _ :: _ => get_infos detail
    | [] => get_infos s
    end in
  available_seats <- get_available_seats_from_infos U (Some infos) ;;
  forecast <- receiver (get_default empty_forecast (current_forecast detail)) ;;
  let occupancy := occupancy forecast in
  let est_distance := estimated_distance s in
  loc <- receiver (get_default empty_location (location s)) ;;
  let coords :=
    match coordinates loc with
    | Holds c => Some c
    | _ => None
    end in
  let lat :=
    match coords with
    | Some c => latitude c
    | None => None
    end in
  let lon :=
    match coords with
    | Some c => longitude c
    | None => None
    end in
  addr <- site_address s ;;
  inr {| Enriched.id := id s;
         Enriched.slug := slug s;
         Enriched.name := py_or (primary_name s) (concat_name s);
         Enriched.address := addr;
         Enriched.latitude := lat;
         Enriched.longitude := lon;
         Enriched.available_seats := available_seats;
         Enriched.occupancy_percent := occupancy;
         Enriched.estimated_distance_m := est_distance;
         Enriched.detail_url := url detail |}.

(** One turn of the loop of lines 140-177: the detail fetch, with the
    summary standing in when it raises; what lines 149-175 raise is not
    caught. *)
Definition enrich (s : Site) : Exception + Enriched.t :=
  let detail :=
    match fetch_site_detail (site_key s) with
    | inr d => d
    | inl _ => Some s
    end in
  assemble s detail.

(** The loop of lines 140-177. *)
Fixpoint enrich_all (libraries : list Site) : Exception + list Enriched.t :=
  match libraries with
  | [] => inr []
  | s :: rest =>
      r <- enrich s ;;
      enriched <- enrich_all rest ;;
      inr (r :: enriched)
  end.

(** [main] up to the list [enriched], lines 122-177. *)
Definition main (fuel : nat) : Outcome (list Enriched.t) :=
  match fst (fetch_all_library_sites fuel) with
  | Returned all_sites =>
      match libraries <- libraries_of all_sites ;; enrich_all libraries with
      | inr enriched => Returned enriched
      | inl e => Raised e
      end
  | Raised e => Raised e
  | OutOfFuel => OutOfFuel
  end.

End Pipeline.

(** The results a reply carries when the loop of
    [fetch_all_library_sites] accepts it: status 200, a JSON body whose
    [data] is not null, the empty list for a missing key. *)
Definition page_results (r : Reply ListPayload) : option (list Site) :=
  match r with
  | Response status_code _ (Some payload_json) =>
      if (status_code =? 200)%Z then
        match data_results payload_json with
        | Holds results => Some results
        | Missing => Some []
        | Null => None
        end
      else None
  | _ => None
  end.

Definition present {A : Type} (o : option A) : bool :=
  match o with
  | Some _ => true
  | None => false
  end.

(** Latitude and longitude are there together or not at all. *)
Definition both_or_neither (r : Enriched.t) : Prop :=
  present (Enriched.latitude r) = present (Enriched.longitude r).

(** The mapping under [location], [coordinates] of a summary. *)
Definition summary_coordinates (s : Site) : option Coordinates :=
  match location s with
  | Holds loc =>
      match coordinates loc with
      | Holds c => Some c
      | _ => None
      end
  | _ => None
  end.

(** ** The map, lines 212-246

    [main] goes on from [enriched] to the centre of the map and to its
    markers.  The mean of line 218 is left to [statistics.mean]: the
    centre keeps the two lists it is taken of. *)

(** Truthiness of an optional float: [None] and zero are falsy. *)
Definition number_truthy (x : option number) : bool :=
  match x with
  | Some q => negb (Qeq_bool q 0)
  | None => false
  end.

(** Lines 212-216. *)
Fixpoint coords_list (enriched : list Enriched.t) : list (number * number) :=
  match enriched with
  | [] => []
  | r :: rest =>
      if number_truthy (Enriched.latitude r) && number_truthy (Enriched.longitude r)
      then
        match Enriched.latitude r, Enriched.longitude r with
        | Some lat, Some lon => (lat, lon) :: coords_list rest
        | _, _ => coords_list rest
        end
      else coords_list rest
  end.

Inductive Centre : Type :=
| MeanOf (lats lons : list number)
| Fixed (lat lon : number).

(** Lines 217-221. *)
Definition centre (enriched : list Enriched.t) : Centre :=
  match coords_list enriched with
  | _ :: _ =>
      MeanOf (map fst (coords_list enriched)) (map snd (coords_list enriched))
  | [] => Fixed (488566 # 10000) (23522 # 10000)
  end.

(** What a marker is made of, lines 230-246: its place, its tooltip, and
    the values the popup shows ([None] is shown as [unknown]). *)
Module Marker.
Record t := {
  location : number * number;
  name : option text;
  addr : text;
  seats : option Z;
  occ : option number;
  detail_url : text
}.
End Marker.

(** [str] of the slug inside the f-string of line 234. *)
Definition str_slug (slug : option text) : text :=
  match slug with
  | Some t => t
  | None => lit "None"
  end.

(** Line 234. *)
Definition marker_detail_url (r : Enriched.t) : text :=
  if truthy (Enriched.detail_url r) then get_text (Enriched.detail_url r)
  else lit "https://affluences.com/site/" ++ str_slug (Enriched.slug r).

(** An operand of the [+] of line 233: [None] cannot be added to a
    string, on either side. *)
Definition str_operand (v : option text) : Exception + text :=
  match v with
  | Some t => inr t
  | None => inl TypeError
  end.

(** Line 233: the two [get] calls are made on the record's address, and
    what they return is joined around a space. *)
Definition marker_addr (r : Enriched.t) : Exception + text :=
  address <- receiver (Enriched.address r) ;;
  route <- str_operand (get_default [] (route address)) ;;
  city <- str_operand (get_default [] (city address)) ;;
  inr (route ++ lit " " ++ city).

(** One turn of the loop of lines 225-246: [None] when line 229 skips the
    record. *)
Definition marker_of (r : Enriched.t) : Exception + option Marker.t :=
  match Enriched.latitude r, Enriched.longitude r with
  | Some lat, Some lon =>
      addr <- marker_addr r ;;
      inr (Some {| Marker.location := (lat, lon);
                   Marker.name := Enriched.name r;
                   Marker.addr := addr;
                   Marker.seats := Enriched.available_seats r;
                   Marker.occ := Enriched.occupancy_percent r;
                   Marker.detail_url := marker_detail_url r |})
  | _, _ => inr None
  end.

Fixpoint markers (enriched : list Enriched.t) : Exception + list Marker.t :=
  match enriched with
  | [] => inr []
  | r :: rest =>
      m <- marker_of r ;;
      ms <- markers rest ;;
      inr match m with
          | Some m => m :: ms
          | None => ms
          end
  end.

(** ** An excerpt of the database

    The rows of the Unicode Character Database for the blocks Basic Latin,
    Latin-1 Supplement, Latin Extended-A (U+0000 to U+017F), Combining
    Diacritical Marks (U+0300 to U+036F), Greek and Coptic (U+0370 to
    U+03FF) and General Punctuation (U+2000 to U+206F), for the two
    modifier letters U+02B9 and U+02BC that decompositions of these blocks
    lead to, and the decimal digits of every script.  The worked examples
    below stay inside these blocks. *)

Definition excerpt_decomposition_rows : list (codepoint * text) :=
  [(0x00A0, [0x0020]); (0x00A8, [0x0020; 0x0308]); (0x00AA, [0x0061]);
   (0x00AF, [0x0020; 0x0304]); (0x00B2, [0x0032]); (0x00B3, [0x0033]);
   (0x00B4, [0x0020; 0x0301]); (0x00B5, [0x03BC]);
   (0x00B8, [0x0020; 0x0327]); (0x00B9, [0x0031]); (0x00BA, [0x006F]);
   (0x00BC, [0x0031; 0x2044; 0x0034]); (0x00BD, [0x0031; 0x2044; 0x0032]);
   (0x00BE, [0x0033; 0x2044; 0x0034]); (0x00C0, [0x0041; 0x0300]);
   (0x00C1, [0x0041; 0x0301]); (0x00C2, [0x0041; 0x0302]);
   (0x00C3, [0x0041; 0x0303]); (0x00C4, [0x0041; 0x0308]);
   (0x00C5, [0x0041; 0x030A]); (0x00C7, [0x0043; 0x0327]);
   (0x00C8, [0x0045; 0x0300]); (0x00C9, [0x0045; 0x0301]);
   (0x00CA, [0x0045; 0x0302]); (0x00CB, [0x0045; 0x0308]);
   (0x00CC, [0x0049; 0x0300]); (0x00CD, [0x0049; 0x0301]);
   (0x00CE, [0x0049; 0x0302]); (0x00CF, [0x0049; 0x0308]);
   (0x00D1, [0x004E; 0x0303]); (0x00D2, [0x004F; 0x0300]);
   (0x00D3, [0x004F; 0x0301]); (0x00D4, [0x004F; 0x0302]);
   (0x00D5, [0x004F; 0x0303]); (0x00D6, [0x004F; 0x0308]);
   (0x00D9, [0x0055; 0x0300]); (0x00DA, [0x0055; 0x0301]);
   (0x00DB, [0x0055; 0x0302]); (0x00DC, [0x0055; 0x0308]);
   (0x00DD, [0x0059; 0x0301]); (0x00E0, [0x0061; 0x0300]);
   (0x00E1, [0x0061; 0x0301]); (0x00E2, [0x0061; 0x0302]);
   (0x00E3, [0x0061; 0x0303]); (0x00E4, [0x0061; 0x0308]);
   (0x00E5, [0x0061; 0x030A]); (0x00E7, [0x0063; 0x0327]);
   (0x00E8, [0x0065; 0x0300]); (0x00E9, [0x0065; 0x0301]);
   (0x00EA, [0x0065; 0x0302]); (0x00EB, [0x0065; 0x0308]);
   (0x00EC, [0x0069; 0x0300]); (0x00ED, [0x0069; 0x0301]);
   (0x00EE, [0x0069; 0x0302]); (0x00EF, [0x0069; 0x0308]);
   (0x00F1, [0x006E; 0x0303]); (0x00F2, [0x006F; 0x0300]);
   (0x00F3, [0x006F; 0x0301]); (0x00F4, [0x006F; 0x0302]);
   (0x00F5, [0x006F; 0x0303]); (0x00F6, [0x006F; 0x0308]);
   (0x00F9, [0x0075; 0x0300]); (0x00FA, [0x0075; 0x0301]);
   (0x00FB, [0x0075; 0x0302]); (0x00FC, [0x0075; 0x0308]);
   (0x00FD, [0x0079; 0x0301]); (0x00FF, [0x0079; 0x0308]);
   (0x0100, [0x0041; 0x0304]); (0x0101, [0x0061; 0x0304]);
   (0x0102, [0x0041; 0x0306]); (0x0103, [0x0061; 0x0306]);
   (0x0104, [0x0041; 0x0328]); (0x0105, [0x0061; 0x0328]);
   (0x0106, [0x0043; 0x0301]); (0x0107, [0x0063; 0x0301]);
   (0x0108, [0x0043; 0x0302]); (0x0109, [0x0063; 0x0302]);
   (0x010A, [0x0043; 0x0307]); (0x010B, [0x0063; 0x0307]);
   (0x010C, [0x0043; 0x030C]); (0x010D, [0x0063; 0x030C]);
   (0x010E, [0x0044; 0x030C]); (0x010F, [0x0064; 0x030C]);
   (0x0112, [0x0045; 0x0304]); (0x0113, [0x0065; 0x0304]);
   (0x0114, [0x0045; 0x0306]); (0x0115, [0x0065; 0x0306]);
   (0x0116, [0x0045; 0x0307]); (0x0117, [0x0065; 0x0307]);
   (0x0118, [0x0045; 0x0328]); (0x0119, [0x0065; 0x0328]);
   (0x011A, [0x0045; 0x030C]); (0x011B, [0x0065; 0x030C]);
   (0x011C, [0x0047; 0x0302]); (0x011D, [0x0067; 0x0302]);
   (0x011E, [0x0047; 0x0306]); (0x011F, [0x0067; 0x0306]);
   (0x0120, [0x0047; 0x0307]); (0x0121, [0x0067; 0x0307]);
   (0x0122, [0x0047; 0x0327]); (0x0123, [0x0067; 0x0327]);
   (0x0124, [0x0048; 0x0302]); (0x0125, [0x0068; 0x0302]);
   (0x0128, [0x0049; 0x0303]); (0x0129, [0x0069; 0x0303]);
   (0x012A, [0x0049; 0x0304]); (0x012B, [0x0069; 0x0304]);
   (0x012C, [0x0049; 0x0306]); (0x012D, [0x0069; 0x0306]);
   (0x012E, [0x0049; 0x0328]); (0x012F, [0x0069; 0x0328]);
   (0x0130, [0x0049; 0x0307]); (0x0132, [0x0049; 0x004A]);
   (0x0133, [0x0069; 0x006A]); (0x0134, [0x004A; 0x0302]);
   (0x0135, [0x006A; 0x0302]); (0x0136, [0x004B; 0x0327]);
   (0x0137, [0x006B; 0x0327]); (0x0139, [0x004C; 0x0301]);
   (0x013A, [0x006C; 0x0301]); (0x013B, [0x004C; 0x0327]);
   (0x013C, [0x006C; 0x0327]); (0x013D, [0x004C; 0x030C]);
   (0x013E, [0x006C; 0x030C]); (0x013F, [0x004C; 0x00B7]);
   (0x0140, [0x006C; 0x00B7]); (0x0143, [0x004E; 0x0301]);
   (0x0144, [0x006E; 0x0301]); (0x0145, [0x004E; 0x0327]);
   (0x0146, [0x006E; 0x0327]); (0x0147, [0x004E; 0x030C]);
   (0x0148, [0x006E; 0x030C]); (0x0149, [0x02BC; 0x006E]);
   (0x014C, [0x004F; 0x0304]); (0x014D, [0x006F; 0x0304]);
   (0x014E, [0x004F; 0x0306]); (0x014F, [0x006F; 0x0306]);
   (0x0150, [0x004F; 0x030B]); (0x0151, [0x006F; 0x030B]);
   (0x0154, [0x0052; 0x0301]); (0x0155, [0x0072; 0x0301]);
   (0x0156, [0x0052; 0x0327]); (0x0157, [0x0072; 0x0327]);
   (0x0158, [0x0052; 0x030C]); (0x0159, [0x0072; 0x030C]);
   (0x015A, [0x0053; 0x0301]); (0x015B, [0x0073; 0x0301]);
   (0x015C, [0x0053; 0x0302]); (0x015D, [0x0073; 0x0302]);
   (0x015E, [0x0053; 0x0327]); (0x015F, [0x0073; 0x0327]);
   (0x0160, [0x0053; 0x030C]); (0x0161, [0x0073; 0x030C]);
   (0x0162, [0x0054; 0x0327]); (0x0163, [0x0074; 0x0327]);
   (0x0164, [0x0054; 0x030C]); (0x0165, [0x0074; 0x030C]);
   (0x0168, [0x0055; 0x0303]); (0x0169, [0x0075; 0x0303]);
   (0x016A, [0x0055; 0x0304]); (0x016B, [0x0075; 0x0304]);
   (0x016C, [0x0055; 0x0306]); (0x016D, [0x0075; 0x0306]);
   (0x016E, [0x0055; 0x030A]); (0x016F, [0x0075; 0x030A]);
   (0x0170, [0x0055; 0x030B]); (0x0171, [0x0075; 0x030B]);
   (0x0172, [0x0055; 0x0328]); (0x0173, [0x0075; 0x0328]);
   (0x0174, [0x0057; 0x0302]); (0x0175, [0x0077; 0x0302]);
   (0x0176, [0x0059; 0x0302]); (0x0177, [0x0079; 0x0302]);
   (0x0178, [0x0059; 0x0308]); (0x0179, [0x005A; 0x0301]);
   (0x017A, [0x007A; 0x0301]); (0x017B, [0x005A; 0x0307]);
   (0x017C, [0x007A; 0x0307]); (0x017D, [0x005A; 0x030C]);
   (0x017E, [0x007A; 0x030C]); (0x017F, [0x0073]); (0x0340, [0x0300]);
   (0x0341, [0x0301]); (0x0343, [0x0313]); (0x0344, [0x0308; 0x0301]);
   (0x0374, [0x02B9]); (0x037A, [0x0020; 0x0345]); (0x037E, [0x003B]);
   (0x0384, [0x0020; 0x0301]); (0x0385, [0x0020; 0x0308; 0x0301]);
   (0x0386, [0x0391; 0x0301]); (0x0387, [0x00B7]);
   (0x0388, [0x0395; 0x0301]); (0x0389, [0x0397; 0x0301]);
   (0x038A, [0x0399; 0x0301]); (0x038C, [0x039F; 0x0301]);
   (0x038E, [0x03A5; 0x0301]); (0x038F, [0x03A9; 0x0301]);
   (0x0390, [0x03B9; 0x0308; 0x0301]); (0x03AA, [0x0399; 0x0308]);
   (0x03AB, [0x03A5; 0x0308]); (0x03AC, [0x03B1; 0x0301]);
   (0x03AD, [0x03B5; 0x0301]); (0x03AE, [0x03B7; 0x0301]);
   (0x03AF, [0x03B9; 0x0301]); (0x03B0, [0x03C5; 0x0308; 0x0301]);
   (0x03CA, [0x03B9; 0x0308]); (0x03CB, [0x03C5; 0x0308]);
   (0x03CC, [0x03BF; 0x0301]); (0x03CD, [0x03C5; 0x0301]);
   (0x03CE, [0x03C9; 0x0301]); (0x03D0, [0x03B2]); (0x03D1, [0x03B8]);
   (0x03D2, [0x03A5]); (0x03D3, [0x03A5; 0x0301]);
   (0x03D4, [0x03A5; 0x0308]); (0x03D5, [0x03C6]); (0x03D6, [0x03C0]);
   (0x03F0, [0x03BA]); (0x03F1, [0x03C1]); (0x03F2, [0x03C2]);
   (0x03F4, [0x0398]); (0x03F5, [0x03B5]); (0x03F9, [0x03A3]);
   (0x2000, [0x0020]); (0x2001, [0x0020]); (0x2002, [0x0020]);
   (0x2003, [0x0020]); (0x2004, [0x0020]); (0x2005, [0x0020]);
   (0x2006, [0x0020]); (0x2007, [0x0020]); (0x2008, [0x0020]);
   (0x2009, [0x0020]); (0x200A, [0x0020]); (0x2011, [0x2010]);
   (0x2017, [0x0020; 0x0333]); (0x2024, [0x002E]);
   (0x2025, [0x002E; 0x002E]); (0x2026, [0x002E; 0x002E; 0x002E]);
   (0x202F, [0x0020]); (0x2033, [0x2032; 0x2032]);
   (0x2034, [0x2032; 0x2032; 0x2032]); (0x2036, [0x2035; 0x2035]);
   (0x2037, [0x2035; 0x2035; 0x2035]); (0x203C, [0x0021; 0x0021]);
   (0x203E, [0x0020; 0x0305]); (0x2047, [0x003F; 0x003F]);
   (0x2048, [0x003F; 0x0021]); (0x2049, [0x0021; 0x003F]);
   (0x2057, [0x2032; 0x2032; 0x2032; 0x2032]); (0x205F, [0x0020])].

Definition excerpt_combining_rows : list (codepoint * codepoint * N) :=
  [(0x0300, 0x0314, 230); (0x0315, 0x0315, 232); (0x0316, 0x0319, 220);
   (0x031A, 0x031A, 232); (0x031B, 0x031B, 216); (0x031C, 0x0320, 220);
   (0x0321, 0x0322, 202); (0x0323, 0x0326, 220); (0x0327, 0x0328, 202);
   (0x0329, 0x0333, 220); (0x0334, 0x0338, 1); (0x0339, 0x033C, 220);
   (0x033D, 0x0344, 230); (0x0345, 0x0345, 240); (0x0346, 0x0346, 230);
   (0x0347, 0x0349, 220); (0x034A, 0x034C, 230); (0x034D, 0x034E, 220);
   (0x0350, 0x0352, 230); (0x0353, 0x0356, 220); (0x0357, 0x0357, 230);
   (0x0358, 0x0358, 232); (0x0359, 0x035A, 220); (0x035B, 0x035B, 230);
   (0x035C, 0x035C, 233); (0x035D, 0x035E, 234); (0x035F, 0x035F, 233);
   (0x0360, 0x0361, 234); (0x0362, 0x0362, 233); (0x0363, 0x036F, 230)].

Definition excerpt_lower_rows : list (codepoint * text) :=
  [(0x0041, [0x0061]); (0x0042, [0x0062]); (0x0043, [0x0063]);
   (0x0044, [0x0064]); (0x0045, [0x0065]); (0x0046, [0x0066]);
   (0x0047, [0x0067]); (0x0048, [0x0068]); (0x0049, [0x0069]);
   (0x004A, [0x006A]); (0x004B, [0x006B]); (0x004C, [0x006C]);
   (0x004D, [0x006D]); (0x004E, [0x006E]); (0x004F, [0x006F]);
   (0x0050, [0x0070]); (0x0051, [0x0071]); (0x0052, [0x0072]);
   (0x0053, [0x0073]); (0x0054, [0x0074]); (0x0055, [0x0075]);
   (0x0056, [0x0076]); (0x0057, [0x0077]); (0x0058, [0x0078]);
   (0x0059, [0x0079]); (0x005A, [0x007A]); (0x00C0, [0x00E0]);
   (0x00C1, [0x00E1]); (0x00C2, [0x00E2]); (0x00C3, [0x00E3]);
   (0x00C4, [0x00E4]); (0x00C5, [0x00E5]); (0x00C6, [0x00E6]);
   (0x00C7, [0x00E7]); (0x00C8, [0x00E8]); (0x00C9, [0x00E9]);
   (0x00CA, [0x00EA]); (0x00CB, [0x00EB]); (0x00CC, [0x00EC]);
   (0x00CD, [0x00ED]); (0x00CE, [0x00EE]); (0x00CF, [0x00EF]);
   (0x00D0, [0x00F0]); (0x00D1, [0x00F1]); (0x00D2, [0x00F2]);
   (0x00D3, [0x00F3]); (0x00D4, [0x00F4]); (0x00D5, [0x00F5]);
   (0x00D6, [0x00F6]); (0x00D8, [0x00F8]); (0x00D9, [0x00F9]);
   (0x00DA, [0x00FA]); (0x00DB, [0x00FB]); (0x00DC, [0x00FC]);
   (0x00DD, [0x00FD]); (0x00DE, [0x00FE]); (0x0100, [0x0101]);
   (0x0102, [0x0103]); (0x0104, [0x0105]); (0x0106, [0x0107]);
   (0x0108, [0x0109]); (0x010A, [0x010B]); (0x010C, [0x010D]);
   (0x010E, [0x010F]); (0x0110, [0x0111]); (0x0112, [0x0113]);
   (0x0114, [0x0115]); (0x0116, [0x0117]); (0x0118, [0x0119]);
   (0x011A, [0x011B]); (0x011C, [0x011D]); (0x011E, [0x011F]);
   (0x0120, [0x0121]); (0x0122, [0x0123]); (0x0124, [0x0125]);
   (0x0126, [0x0127]); (0x0128, [0x0129]); (0x012A, [0x012B]);
   (0x012C, [0x012D]); (0x012E, [0x012F]); (0x0130, [0x0069; 0x0307]);
   (0x0132, [0x0133]); (0x0134, [0x0135]); (0x0136, [0x0137]);
   (0x0139, [0x013A]); (0x013B, [0x013C]); (0x013D, [0x013E]);
   (0x013F, [0x0140]); (0x0141, [0x0142]); (0x0143, [0x0144]);
   (0x0145, [0x0146]); (0x0147, [0x0148]); (0x014A, [0x014B]);
   (0x014C, [0x014D]); (0x014E, [0x014F]); (0x0150, [0x0151]);
   (0x0152, [0x0153]); (0x0154, [0x0155]); (0x0156, [0x0157]);
   (0x0158, [0x0159]); (0x015A, [0x015B]); (0x015C, [0x015D]);
   (0x015E, [0x015F]); (0x0160, [0x0161]); (0x0162, [0x0163]);
   (0x0164, [0x0165]); (0x0166, [0x0167]); (0x0168, [0x0169]);
   (0x016A, [0x016B]); (0x016C, [0x016D]); (0x016E, [0x016F]);
   (0x0170, [0x0171]); (0x0172, [0x0173]); (0x0174, [0x0175]);
   (0x0176, [0x0177]); (0x0178, [0x00FF]); (0x0179, [0x017A]);
   (0x017B, [0x017C]); (0x017D, [0x017E]); (0x0370, [0x0371]);
   (0x0372, [0x0373]); (0x0376, [0x0377]); (0x037F, [0x03F3]);
   (0x0386, [0x03AC]); (0x0388, [0x03AD]); (0x0389, [0x03AE]);
   (0x038A, [0x03AF]); (0x038C, [0x03CC]); (0x038E, [0x03CD]);
   (0x038F, [0x03CE]); (0x0391, [0x03B1]); (0x0392, [0x03B2]);
   (0x0393, [0x03B3]); (0x0394, [0x03B4]); (0x0395, [0x03B5]);
   (0x0396, [0x03B6]); (0x0397, [0x03B7]); (0x0398, [0x03B8]);
   (0x0399, [0x03B9]); (0x039A, [0x03BA]); (0x039B, [0x03BB]);
   (0x039C, [0x03BC]); (0x039D, [0x03BD]); (0x039E, [0x03BE]);
   (0x039F, [0x03BF]); (0x03A0, [0x03C0]); (0x03A1, [0x03C1]);
   (0x03A3, [0x03C3]); (0x03A4, [0x03C4]); (0x03A5, [0x03C5]);
   (0x03A6, [0x03C6]); (0x03A7, [0x03C7]); (0x03A8, [0x03C8]);
   (0x03A9, [0x03C9]); (0x03AA, [0x03CA]); (0x03AB, [0x03CB]);
   (0x03CF, [0x03D7]); (0x03D8, [0x03D9]); (0x03DA, [0x03DB]);
   (0x03DC, [0x03DD]); (0x03DE, [0x03DF]); (0x03E0, [0x03E1]);
   (0x03E2, [0x03E3]); (0x03E4, [0x03E5]); (0x03E6, [0x03E7]);
   (0x03E8, [0x03E9]); (0x03EA, [0x03EB]); (0x03EC, [0x03ED]);
   (0x03EE, [0x03EF]); (0x03F4, [0x03B8]); (0x03F7, [0x03F8]);
   (0x03F9, [0x03F2]); (0x03FA, [0x03FB]); (0x03FD, [0x037B]);
   (0x03FE, [0x037C]); (0x03FF, [0x037D])].

Definition excerpt_cased_rows : list (codepoint * codepoint) :=
  [(0x0041, 0x005A); (0x0061, 0x007A); (0x00AA, 0x00AA); (0x00B5, 0x00B5);
   (0x00BA, 0x00BA); (0x00C0, 0x00D6); (0x00D8, 0x00F6); (0x00F8, 0x017F);
   (0x0345, 0x0345); (0x0370, 0x0373); (0x0376, 0x0377); (0x037A, 0x037D);
   (0x037F, 0x037F); (0x0386, 0x0386); (0x0388, 0x038A); (0x038C, 0x038C);
   (0x038E, 0x03A1); (0x03A3, 0x03F5); (0x03F7, 0x03FF)].

Definition excerpt_case_ignorable_rows : list (codepoint * codepoint) :=
  [(0x0027, 0x0027); (0x002E, 0x002E); (0x003A, 0x003A); (0x005E, 0x005E);
   (0x0060, 0x0060); (0x00A8, 0x00A8); (0x00AD, 0x00AD); (0x00AF, 0x00AF);
   (0x00B4, 0x00B4); (0x00B7, 0x00B8); (0x02B9, 0x02B9); (0x02BC, 0x02BC);
   (0x0300, 0x036F); (0x0374, 0x0375); (0x037A, 0x037A); (0x0384, 0x0385);
   (0x0387, 0x0387); (0x200B, 0x200F); (0x2018, 0x2019); (0x2024, 0x2024);
   (0x2027, 0x2027); (0x202A, 0x202E); (0x2060, 0x2064); (0x2066, 0x206F)].

Definition decimal_zeros : list codepoint :=
  [0x0030; 0x0660; 0x06F0; 0x07C0; 0x0966; 0x09E6; 0x0A66; 0x0AE6; 0x0B66;
   0x0BE6; 0x0C66; 0x0CE6; 0x0D66; 0x0DE6; 0x0E50; 0x0ED0; 0x0F20; 0x1040;
   0x1090; 0x17E0; 0x1810; 0x1946; 0x19D0; 0x1A80; 0x1A90; 0x1B50; 0x1BB0;
   0x1C40; 0x1C50; 0xA620; 0xA8D0; 0xA900; 0xA9D0; 0xA9F0; 0xAA50; 0xABF0;
   0xFF10; 0x104A0; 0x10D30; 0x11066; 0x110F0; 0x11136; 0x111D0; 0x112F0;
   0x11450; 0x114D0; 0x11650; 0x116C0; 0x11730; 0x118E0; 0x11950; 0x11C50;
   0x11D50; 0x11DA0; 0x16A60; 0x16AC0; 0x16B50; 0x1D7CE; 0x1D7D8; 0x1D7E2;
   0x1D7EC; 0x1D7F6; 0x1E140; 0x1E2F0; 0x1E950; 0x1FBF0].

Definition excerpt : UnicodeData :=
  {| decomposition_rows := excerpt_decomposition_rows;
     combining_rows := excerpt_combining_rows;
     lower_rows := excerpt_lower_rows;
     cased_rows := excerpt_cased_rows;
     case_ignorable_rows := excerpt_case_ignorable_rows;
     decimal_zero_rows := decimal_zeros |}.

(** ** Example inputs *)

Definition entry (t d : text) : InfoEntry :=
  {| title := Some t; description := Some d |}.

Definition horaires : InfoEntry := entry (lit "Horaires") (lit "9h-18h").

Definition places_disponibles : InfoEntry :=
  entry (lit "Places disponibles") (lit "12 places libres").

Definition places_later : InfoEntry :=
  entry (lit "Available seats") (lit "30").

(** [Capacité totale 50], with its U+00E9. *)
Definition note_capacite : InfoEntry :=
  entry (lit "Note") (lit "Capacit" ++ 0xE9 :: lit " totale 50").

Definition etages : InfoEntry := entry (lit "Niveaux") (lit "3 niveaux").

Definition wifi : InfoEntry := entry (lit "Wifi") (lit "gratuit").

Definition capacite_places : InfoEntry :=
  entry (lit "Salle") (lit "200 places au total").

Definition site (n : Z) (name : text) (loc : Slot Location) (i : option (list InfoEntry)) : Site :=
  {| id := Some n; slug := Some name; primary_name := Some name;
     concat_name := None; location := loc; estimated_distance := None;
     infos := i; current_forecast := Missing; url := None |}.

(** An address in [Île-de-France], with its U+00CE. *)
Definition paris : Address :=
  {| region := Some (0xCE :: lit "le-de-France");
     route := Holds (lit "10 place du Pantheon");
     city := Holds (lit "Paris") |}.

Definition rennes : Address :=
  {| region := Some (lit "Bretagne"); route := Missing;
     city := Holds (lit "Rennes") |}.

Definition located (a : Address) (lat lon : option number) : Slot Location :=
  Holds {| address := Holds a;
             coordinates := Holds {| latitude := lat; longitude := lon |} |}.

Definition bsg : Site :=
  site 1 (lit "bsg") (located paris (Some (4885 # 100)) (Some (235 # 100)))
       (Some [places_disponibles]).

Definition champs_libres : Site :=
  site 2 (lit "champs-libres") (located rennes (Some (4810 # 100)) None) None.

Definition bpi : Site :=
  site 3 (lit "bpi") (located paris (Some (4886 # 100)) None)
       (Some [capacite_places]).

Definition ok_page (results : list Site) : Reply ListPayload :=
  Response 200 (lit "{...}") (Some {| data_results := Holds results |}).

(** A list endpoint with two pages of sites, then an empty page. *)
Definition two_pages (page : nat) : Reply ListPayload :=
  match page with
  | 0%nat => ok_page [bsg; champs_libres]
  | 1%nat => ok_page [bpi]
  | _ => ok_page []
  end.

(** A list endpoint whose second page is refused. *)
Definition second_page_refused (page : nat) : Reply ListPayload :=
  match page with
  | 0%nat => ok_page [bsg; champs_libres]
  | _ => Response 503 (lit "Service Unavailable") None
  end.

(** What the detail endpoint knows of [bsg]. *)
Definition bsg_detail : Site :=
  {| id := Some 1%Z; slug := Some (lit "bsg"); primary_name := Some (lit "bsg");
     concat_name := None; location := Missing; estimated_distance := None;
     infos := Some [entry (lit "Available seats") (lit "87")];
     current_forecast := Holds {| occupancy := Some (42 # 1) |};
     url := Some (lit "https://affluences.com/bsg") |}.

Definition text_eqb (a b : text) : bool :=
  starts_with a b && starts_with b a.

(** A detail endpoint that answers for [bsg] and fails, with a 500, for
    every other key. *)
Definition detail_bsg_only (key : SiteKey) : Reply DetailPayload :=
  match key with
  | KeySlug s =>
      if text_eqb s (lit "bsg")
      then Response 200 (lit "{...}") (Some {| data := Holds bsg_detail |})
      else Response 500 (lit "Internal Server Error") None
  | _ => Response 500 (lit "Internal Server Error") None
  end.

(** The marker of [bsg] once its detail is fetched. *)
Definition bsg_marker : Marker.t :=
  {| Marker.location := (4885 # 100, 235 # 100);
     Marker.name := Some (lit "bsg");
     Marker.addr := lit "10 place du Pantheon Paris";
     Marker.seats := Some 87%Z;
     Marker.occ := Some (42 # 1);
     Marker.detail_url := lit "https://affluences.com/bsg" |}.


(** A run of 4301 digits, one more than [int] converts. *)
Definition long_run : text := repeat 0x31 4301.

(** A site in [Île-de-France] whose only entry holds that run. *)
Definition overlong : Site :=
  site 4 (lit "overlong") (located paris None None)
       (Some [entry (lit "Places") long_run]).

(** A site in [Île-de-France] whose [current_forecast] holds null. *)
Definition no_forecast : Site :=
  {| id := Some 5%Z; slug := Some (lit "no-forecast");
     primary_name := Some (lit "no-forecast"); concat_name := None;
     location := located paris None None; estimated_distance := None;
     infos := Some [places_disponibles]; current_forecast := Null;
     url := None |}.

(** A list endpoint with one page holding one site, then an empty page. *)
Definition one_site (s : Site) (page : nat) : Reply ListPayload :=
  match page with
  | 0%nat => ok_page [s]
  | _ => ok_page []
  end.

(** A detail endpoint that answers 500 to every request. *)
Definition detail_down (key : SiteKey) : Reply DetailPayload :=
  Response 500 (lit "Internal Server Error") None.

(** The record of [bpi] when its detail fetch fails. *)
Definition bpi_record : Enriched.t :=
  {| Enriched.id := Some 3%Z;
     Enriched.slug := Some (lit "bpi");
     Enriched.name := Some (lit "bpi");
     Enriched.address := Some paris;
     Enriched.latitude := Some (4886 # 100);
     Enriched.longitude := None;
     Enriched.available_seats := Some 200%Z;
     Enriched.occupancy_percent := None;
     Enriched.estimated_distance_m := None;
     Enriched.detail_url := None |}.

(** The record of [bsg] once its detail is fetched. *)
Definition bsg_record : Enriched.t :=
  {| Enriched.id := Some 1%Z;
     Enriched.slug := Some (lit "bsg");
     Enriched.name := Some (lit "bsg");
     Enriched.address := Some paris;
     Enriched.latitude := Some (4885 # 100);
     Enriched.longitude := Some (235 # 100);
     Enriched.available_seats := Some 87%Z;
     Enriched.occupancy_percent := Some (42 # 1);
     Enriched.estimated_distance_m := None;
     Enriched.detail_url := Some (lit "https://affluences.com/bsg") |}.

(** A site whose [location] holds null. *)
Definition nowhere : Site :=
  site 6 (lit "nowhere") Null (Some [places_disponibles]).

(** A site of Paris whose address holds null for its route, and its
    record when the detail fetch fails. *)
Definition rue : Site :=
  site 7 (lit "rue")
       (Holds {| address :=
                   Holds {| region := region paris; route := Null;
                            city := city paris |};
                 coordinates :=
                   Holds {| latitude := Some (4885 # 100);
                            longitude := Some (235 # 100) |} |})
       None.

Definition unnamed_street : Enriched.t :=
  {| Enriched.id := Some 7%Z;
     Enriched.slug := Some (lit "rue");
     Enriched.name := Some (lit "rue");
     Enriched.address :=
       Some {| region := region paris; route := Null; city := city paris |};
     Enriched.latitude := Some (4885 # 100);
     Enriched.longitude := Some (235 # 100);
     Enriched.available_seats := None;
     Enriched.occupancy_percent := None;
     Enriched.estimated_distance_m := None;
     Enriched.detail_url := None |}.

(** * Properties *)

(** ** Substring search *)

Lemma starts_with_spec p s :
  starts_with p s = true <-> exists after, s = p ++ after.
Proof.
  revert s; induction p as [|a p IH]; intros s; simpl.
  - split; [exists s; reflexivity | reflexivity].
  - destruct s as [|b s].
    + split; [discriminate | intros [after H]; discriminate].
    + rewrite andb_true_iff, N.eqb_eq, IH. split.
      * intros [-> [after ->]]. exists after. reflexivity.
      * intros [after H]. injection H as -> ->. split; [reflexivity | eauto].
Qed.

Lemma contains_spec p s : contains p s = true <-> occurs p s.
Proof.
  induction s as [|b s IH].
  - simpl. rewrite orb_false_r, starts_with_spec. split.
    + intros [after H]. exists [], after. exact H.
    + intros [before [after H]]. destruct before as [|x before]; [|discriminate].
      exists after. exact H.
  - simpl. rewrite orb_true_iff, starts_with_spec, IH. split.
    + intros [[after H] | [before [after H]]].
      * exists [], after. exact H.
      * exists (b :: before), after. rewrite H. reflexivity.
    + intros [before [after H]]. destruct before as [|x before].
      * left. exists after. exact H.
      * right. injection H as _ H. exists before, after. exact H.
Qed.

Lemma occurs_trans p q s : occurs p q -> occurs q s -> occurs p s.
Proof.
  intros [b1 [a1 ->]] [b2 [a2 ->]].
  exists (b2 ++ b1), (a1 ++ a2). now rewrite <- !app_assoc.
Qed.

Lemma contains_trans p q s :
  contains p q = true -> contains q s = true -> contains p s = true.
Proof.
  rewrite !contains_spec. apply occurs_trans.
Qed.

(** ** The text normaliser *)

Section NormaliserFacts.

Variable U : UnicodeData.

Lemma assoc_in {A : Type} c (rows : list (codepoint * A)) v :
  assoc c rows = Some v -> In (c, v) rows.
Proof.
  induction rows as [|[k w] rows IH]; simpl; [discriminate|].
  destruct (k =? c) eqn:E.
  - apply N.eqb_eq in E. intros H. injection H as ->. left. now subst.
  - intros H. right. now apply IH.
Qed.

(** *** Canonical ordering moves non-starters only *)

Lemma filter_starter_insert_mark c placed :
  starter U c = false ->
  filter (starter U) (insert_mark U c placed) = filter (starter U) placed.
Proof.
  intros Hc. induction placed as [|e placed IH]; simpl.
  - now rewrite Hc.
  - change (combining U e =? 0) with (starter U e).
    destruct (starter U e) eqn:He; simpl.
    + now rewrite Hc, He.
    + destruct (combining U e <=? combining U c); simpl.
      * now rewrite Hc, He.
      * now rewrite He.
Qed.

Lemma filter_starter_place placed c :
  filter (starter U) (place U placed c) = filter (starter U) (c :: placed).
Proof.
  unfold place. fold (starter U c).
  destruct (starter U c) eqn:Hc; [reflexivity|].
  rewrite filter_starter_insert_mark by exact Hc. simpl. now rewrite Hc.
Qed.

Lemma filter_starter_fold s placed :
  filter (starter U) (fold_left (place U) s placed) =
  rev (filter (starter U) s) ++ filter (starter U) placed.
Proof.
  revert placed. induction s as [|c s IH]; intros placed; simpl; [reflexivity|].
  rewrite IH, filter_starter_place. simpl.
  destruct (starter U c); simpl; [|reflexivity].
  now rewrite <- app_assoc.
Qed.

Lemma filter_starter_canonical_order s :
  filter (starter U) (canonical_order U s) = filter (starter U) s.
Proof.
  unfold canonical_order.
  rewrite filter_rev, filter_starter_fold, app_nil_r. apply rev_involutive.
Qed.

Lemma fold_place_starters s placed :
  forallb (starter U) s = true ->
  fold_left (place U) s placed = rev s ++ placed.
Proof.
  revert placed. induction s as [|c s IH]; intros placed H; simpl; [reflexivity|].
  simpl in H. apply andb_true_iff in H as [Hc Hs].
  rewrite IH by exact Hs. unfold place. fold (starter U c). rewrite Hc.
  now rewrite <- app_assoc.
Qed.

Lemma canonical_order_starters s :
  forallb (starter U) s = true -> canonical_order U s = s.
Proof.
  intros H. unfold canonical_order.
  rewrite fold_place_starters, app_nil_r by exact H. apply rev_involutive.
Qed.

(** *** What consistent tables give *)

Hypothesis tables : consistent U = true.

Lemma tables_split :
  check_decomposition U = true /\ check_lower U = true /\ check_sigma U = true.
Proof.
  unfold consistent in tables.
  apply andb_true_iff in tables as [H Hs]. apply andb_true_iff in H as [Hd Hl].
  auto.
Qed.

Lemma stable_decomposition c : stable U c = true -> decomposition U c = [c].
Proof.
  unfold stable, decomposition, has_row. intros H.
  apply andb_true_iff in H as [Hh Hr].
  destruct (is_hangul_syllable c); [discriminate|].
  now destruct (assoc c (decomposition_rows U)).
Qed.

Lemma in_two_or_three (b : bool) (L V T e : codepoint) :
  In e (if b then [L; V] else [L; V; T]) -> e = L \/ e = V \/ e = T.
Proof. destruct b; simpl; intuition. Qed.

Lemma hangul_decomposition_jamo c e :
  is_hangul_syllable c = true -> In e (hangul_decomposition c) -> jamo e = true.
Proof.
  unfold is_hangul_syllable, hangul_decomposition, jamo,
    SBase, SCount, LBase, VBase, TBase, NCount, TCount.
  intros Hc. apply andb_true_iff in Hc as [Hlo Hhi].
  apply N.leb_le in Hlo. apply N.ltb_lt in Hhi.
  assert (HL : (c - 44032) / 588 < 19) by (apply N.Div0.div_lt_upper_bound; lia).
  assert (HV : ((c - 44032) mod 588) / 28 < 21).
  { apply N.Div0.div_lt_upper_bound.
    pose proof (N.mod_upper_bound (c - 44032) 588). lia. }
  assert (HT : (c - 44032) mod 28 < 28) by (apply N.mod_upper_bound; lia).
  intros He. apply in_two_or_three in He.
  apply andb_true_iff. rewrite N.leb_le, N.leb_le.
  set (l := (c - 44032) / 588) in *.
  set (v := (c - 44032) mod 588 / 28) in *.
  set (t := (c - 44032) mod 28) in *.
  clearbody l v t.
  destruct He as [-> | [-> | ->]]; lia.
Qed.

Lemma jamo_stable e : jamo e = true -> stable U e = true.
Proof.
  intros He. unfold stable. apply andb_true_iff. split.
  - unfold jamo, LBase in He. unfold is_hangul_syllable, SBase, SCount.
    apply andb_true_iff in He as [_ Hhi]. apply N.leb_le in Hhi.
    apply negb_true_iff, andb_false_iff. left. apply N.leb_gt. lia.
  - unfold has_row. destruct (assoc e (decomposition_rows U)) as [d|] eqn:E; [|reflexivity].
    apply assoc_in in E. destruct tables_split as [Hd _].
    unfold check_decomposition in Hd. rewrite forallb_forall in Hd.
    specialize (Hd _ E). simpl in Hd. now rewrite He in Hd.
Qed.

Lemma decomposition_stable c e :
  In e (decomposition U c) -> stable U e = true.
Proof.
  unfold decomposition.
  destruct (is_hangul_syllable c) eqn:Hh.
  - intros He. apply jamo_stable. now apply (hangul_decomposition_jamo c).
  - destruct (assoc c (decomposition_rows U)) as [d|] eqn:E.
    + intros He. apply assoc_in in E. destruct tables_split as [Hd _].
      unfold check_decomposition in Hd. rewrite forallb_forall in Hd.
      specialize (Hd _ E). simpl in Hd. apply andb_true_iff in Hd as [_ Hd].
      rewrite forallb_forall in Hd. now apply Hd.
    + intros [<- | []]. unfold stable, has_row. now rewrite Hh, E.
Qed.

Lemma to_lower_full_fixed e :
  stable U e = true -> starter U e = true -> (e =? capital_sigma) = false ->
  forallb (lower_fixed U) (to_lower_full U e) = true.
Proof.
  intros Hs Hc Hn. unfold to_lower_full.
  destruct (assoc e (lower_rows U)) as [l|] eqn:E.
  - apply assoc_in in E. destruct tables_split as [_ [Hl _]].
    unfold check_lower in Hl. rewrite forallb_forall in Hl.
    specialize (Hl _ E). simpl in Hl. now rewrite Hn, Hs, Hc in Hl.
  - simpl. unfold lower_fixed, has_row. now rewrite Hs, Hc, E, Hn.
Qed.

Lemma sigma_fixed before after :
  lower_fixed U (handle_capital_sigma U before after) = true.
Proof.
  destruct tables_split as [_ [_ Hs]]. unfold check_sigma in Hs.
  cbn [forallb] in Hs. apply andb_true_iff in Hs as [Hf Hm].
  rewrite andb_true_r in Hm.
  unfold handle_capital_sigma.
  match goal with
  | |- context [if ?b then _ else _] => destruct b
  end; unfold lower_fixed; [rewrite Hf | rewrite Hm]; reflexivity.
Qed.

Lemma lower_from_fixed before s :
  forallb (fun c => stable U c && starter U c) s = true ->
  forallb (lower_fixed U) (lower_from U before s) = true.
Proof.
  revert before. induction s as [|c s IH]; intros before H; simpl; [reflexivity|].
  simpl in H. apply andb_true_iff in H as [Hc Hs].
  apply andb_true_iff in Hc as [Hst Hcc].
  rewrite forallb_app, IH by exact Hs. rewrite andb_true_r.
  destruct (c =? capital_sigma) eqn:E.
  - simpl. now rewrite sigma_fixed.
  - now apply to_lower_full_fixed.
Qed.

(** *** Text that normalisation leaves alone *)

Lemma lower_fixed_parts c :
  lower_fixed U c = true ->
  decomposition U c = [c] /\ starter U c = true /\ to_lower_full U c = [c]
  /\ (c =? capital_sigma) = false.
Proof.
  unfold lower_fixed. intros H.
  apply andb_true_iff in H as [H Hn]. apply andb_true_iff in H as [H Hr].
  apply andb_true_iff in H as [Hs Hc].
  repeat split; auto.
  - now apply stable_decomposition.
  - unfold to_lower_full, has_row in *.
    now destruct (assoc c (lower_rows U)).
  - now apply negb_true_iff.
Qed.

Lemma flat_map_decomposition_fixed t :
  forallb (lower_fixed U) t = true -> flat_map (decomposition U) t = t.
Proof.
  induction t as [|c t IH]; simpl; [reflexivity|]. intros H.
  apply andb_true_iff in H as [Hc Ht].
  destruct (lower_fixed_parts c Hc) as [-> _]. simpl. now rewrite IH.
Qed.

Lemma starters_fixed t :
  forallb (lower_fixed U) t = true -> forallb (starter U) t = true.
Proof.
  induction t as [|c t IH]; simpl; [reflexivity|]. intros H.
  apply andb_true_iff in H as [Hc Ht].
  destruct (lower_fixed_parts c Hc) as [_ [-> _]]. now apply IH.
Qed.

Lemma lower_from_id before t :
  forallb (lower_fixed U) t = true -> lower_from U before t = t.
Proof.
  revert before. induction t as [|c t IH]; intros before H; simpl; [reflexivity|].
  simpl in H. apply andb_true_iff in H as [Hc Ht].
  destruct (lower_fixed_parts c Hc) as [_ [_ [-> ->]]]. simpl. now rewrite IH.
Qed.

Lemma norm_text_fixed t :
  forallb (lower_fixed U) t = true -> norm_text U (Some t) = t.
Proof.
  intros H. destruct t as [|c t]; [reflexivity|].
  unfold norm_text, normalize_NFKD, lower.
  rewrite flat_map_decomposition_fixed by exact H.
  rewrite canonical_order_starters by now apply starters_fixed.
  change (fun ch => combining U ch =? 0) with (starter U).
  rewrite forallb_filter_id by now apply starters_fixed.
  now apply lower_from_id.
Qed.

Lemma norm_text_lower_fixed x :
  forallb (lower_fixed U) (norm_text U x) = true.
Proof.
  destruct x as [[|c s]|]; [reflexivity | | reflexivity].
  unfold norm_text, normalize_NFKD, lower.
  change (fun ch => combining U ch =? 0) with (starter U).
  rewrite filter_starter_canonical_order.
  apply lower_from_fixed. apply forallb_forall. intros e He.
  apply filter_In in He as [He Hst]. rewrite Hst, andb_true_r.
  apply in_flat_map in He as [a [_ He]]. now apply (decomposition_stable a).
Qed.

End NormaliserFacts.

(** C9.  With consistent tables, what [norm_text] returns is text that
    [norm_text] leaves alone: it holds no code point that decomposes, no
    combining mark and nothing lower-casing changes.  [norm_text] gives
    the empty string for empty and absent input, and otherwise lower-cases
    what remains of the compatibility decomposition once the combining
    marks are dropped. *)
Theorem norm_text_idempotent U :
  consistent U = true ->
  (forall x, norm_text U (Some (norm_text U x)) = norm_text U x)
  /\ norm_text U None = []
  /\ norm_text U (Some []) = []
  /\ (forall s, s <> [] ->
      norm_text U (Some s) =
      lower U (filter (fun ch => combining U ch =? 0) (normalize_NFKD U s))).
Proof.
  intros tables. repeat split.
  - intros x. apply norm_text_fixed. now apply norm_text_lower_fixed.
  - intros [|c s] H; [contradiction | reflexivity].
Qed.

Lemma norm_text_idempotent_witness :
  norm_text excerpt (Some (norm_text excerpt (Some (0xCE :: lit "le-de-France"))))
  = norm_text excerpt (Some (0xCE :: lit "le-de-France")).
Proof.
  apply (proj1 (norm_text_idempotent excerpt eq_refl)).
Defined.

(** *** The normaliser across a space *)

Section JoinFacts.

Variable U : UnicodeData.
Hypothesis plain_space : plain U space = true.

Lemma plain_space_parts :
  decomposition U space = [space] /\ starter U space = true
  /\ to_lower_full U space = [space] /\ (space =? capital_sigma) = false
  /\ cased U space = false /\ case_ignorable U space = false.
Proof.
  unfold plain in plain_space.
  apply andb_true_iff in plain_space as [H Hi]. apply andb_true_iff in H as [Hf Hc].
  destruct (lower_fixed_parts U space Hf) as [Hd [Hs [Hl Hn]]].
  apply negb_true_iff in Hi, Hc. auto 8.
Qed.

Lemma norm_text_unfold s :
  norm_text U (Some s) = lower U (filter (starter U) (flat_map (decomposition U) s)).
Proof.
  destruct s as [|c s]; [reflexivity|].
  unfold norm_text, normalize_NFKD.
  change (fun ch => combining U ch =? 0) with (starter U).
  now rewrite filter_starter_canonical_order.
Qed.

Lemma cased_before_space l rest :
  match first_not_ignorable U (l ++ space :: rest) with
  | Some c => cased U c
  | None => false
  end =
  match first_not_ignorable U l with
  | Some c => cased U c
  | None => false
  end.
Proof.
  destruct plain_space_parts as [_ [_ [_ [_ [Hc Hi]]]]].
  unfold first_not_ignorable.
  induction l as [|a l IH]; cbn [app find].
  - rewrite Hi. cbn [negb]. exact Hc.
  - now destruct (negb (case_ignorable U a)).
Qed.

Lemma handle_capital_sigma_before pre tail after :
  handle_capital_sigma U (pre ++ space :: tail) after = handle_capital_sigma U pre after.
Proof. unfold handle_capital_sigma. now rewrite cased_before_space. Qed.

Lemma handle_capital_sigma_after before rest tail :
  handle_capital_sigma U before (rest ++ space :: tail) = handle_capital_sigma U before rest.
Proof. unfold handle_capital_sigma. now rewrite cased_before_space. Qed.

Lemma lower_from_behind_space pre tail s :
  lower_from U (pre ++ space :: tail) s = lower_from U pre s.
Proof.
  revert pre. induction s as [|c s IH]; intros pre; cbn [lower_from]; [reflexivity|].
  rewrite handle_capital_sigma_before. f_equal. apply (IH (c :: pre)).
Qed.

Lemma lower_from_join before a b :
  lower_from U before (a ++ space :: b) =
  lower_from U before a ++ space :: lower_from U [] b.
Proof.
  destruct plain_space_parts as [_ [_ [Hl [Hn _]]]].
  revert before. induction a as [|c a IH]; intros before; cbn [app lower_from].
  - rewrite Hn, Hl. cbn [app]. f_equal. apply (lower_from_behind_space [] before).
  - rewrite handle_capital_sigma_after, IH. now rewrite <- app_assoc.
Qed.

Lemma norm_text_join t d :
  norm_text U (Some (t ++ space :: d)) =
  norm_text U (Some t) ++ space :: norm_text U (Some d).
Proof.
  destruct plain_space_parts as [Hd [Hs _]].
  rewrite !norm_text_unfold. unfold lower.
  rewrite flat_map_app, filter_app. cbn [flat_map]. rewrite Hd.
  cbn [app filter]. rewrite Hs. apply lower_from_join.
Qed.

End JoinFacts.

(** ** The numeric extractor *)

Section ExtractorFacts.

Variable U : UnicodeData.

Lemma take_decimal_run run after :
  (forall c, In c run -> is_decimal U c = true) ->
  (forall c, hd_error after = Some c -> is_decimal U c = false) ->
  take_decimal U (run ++ after) = run.
Proof.
  intros Hrun Hafter. induction run as [|d run IH]; simpl.
  - destruct after as [|c after]; [reflexivity|].
    simpl. now rewrite (Hafter c eq_refl).
  - rewrite (Hrun d) by now left. f_equal. apply IH.
    intros c Hc. apply Hrun. now right.
Qed.

Lemma re_search_digits_none t :
  (forall c, In c t -> is_decimal U c = false) -> re_search_digits U t = None.
Proof.
  induction t as [|c t IH]; intros H; simpl; [reflexivity|].
  rewrite (H c) by now left. apply IH. intros d Hd. apply H. now right.
Qed.

Lemma re_search_digits_first before run after :
  (forall c, In c before -> is_decimal U c = false) ->
  run <> [] ->
  (forall c, In c run -> is_decimal U c = true) ->
  (forall c, hd_error after = Some c -> is_decimal U c = false) ->
  re_search_digits U (before ++ run ++ after) = Some run.
Proof.
  intros Hb Hne Hrun Hafter. induction before as [|c before IH]; simpl.
  - destruct run as [|d run]; [contradiction|]. simpl.
    rewrite (Hrun d) by now left.
    rewrite take_decimal_run; [reflexivity | | exact Hafter].
    intros c Hc. apply Hrun. now right.
  - rewrite (Hb c) by now left. apply IH. intros d Hd. apply Hb. now right.
Qed.

Lemma replace_narrow_nbsp_idem s :
  replace_narrow_nbsp (replace_narrow_nbsp s) = replace_narrow_nbsp s.
Proof.
  unfold replace_narrow_nbsp. induction s as [|c s IH]; simpl; [reflexivity|].
  destruct (negb (c =? narrow_nbsp)) eqn:E; simpl; [rewrite E; f_equal|]; exact IH.
Qed.

Lemma extract_first_int_search s :
  extract_first_int U (Some s) =
  match re_search_digits U (replace_narrow_nbsp s) with
  | Some m => n <- py_int U m ;; inr (Some n)
  | None => inr None
  end.
Proof. destruct s; reflexivity. Qed.

Lemma py_int_short run :
  (List.length run <= int_max_str_digits)%nat -> py_int U run = inr (int_value U run).
Proof.
  intros H. unfold py_int.
  now rewrite (proj2 (Nat.ltb_ge _ _) H).
Qed.

Lemma py_int_long run :
  (int_max_str_digits < List.length run)%nat -> py_int U run = inl ValueError.
Proof.
  intros H. unfold py_int.
  now rewrite (proj2 (Nat.ltb_lt _ _) H).
Qed.

Lemma int_value_snoc run c :
  int_value U (run ++ [c]) = (10 * int_value U run + digit_value U c)%Z.
Proof. unfold int_value. now rewrite fold_left_app. Qed.

Lemma replace_narrow_nbsp_repeat (c : codepoint) n :
  (c =? narrow_nbsp) = false ->
  replace_narrow_nbsp (repeat c n) = repeat c n.
Proof.
  intros H. unfold replace_narrow_nbsp.
  induction n as [|n IH]; cbn [repeat filter]; [reflexivity|].
  rewrite H. cbn [negb]. now rewrite IH.
Qed.

(** A text made of one digit, more times than [int] converts. *)
Lemma extract_first_int_long_repeat (c : codepoint) n :
  is_decimal U c = true ->
  (c =? narrow_nbsp) = false ->
  (int_max_str_digits < n)%nat ->
  extract_first_int U (Some (repeat c n)) = inl ValueError.
Proof.
  intros Hd Hc Hn.
  rewrite extract_first_int_search, (replace_narrow_nbsp_repeat c n Hc).
  assert (E : re_search_digits U (repeat c n) = Some (repeat c n)).
  { rewrite <- (app_nil_r (repeat c n)) at 1.
    apply (re_search_digits_first [] (repeat c n) []).
    - intros d [].
    - destruct n; [inversion Hn | discriminate].
    - intros d H. now rewrite (repeat_spec _ _ _ H).
    - discriminate. }
  rewrite E, py_int_long; [reflexivity|]. now rewrite repeat_length.
Qed.

End ExtractorFacts.

(** C5, as the program has it.  [extract_first_int] drops every U+202F
    and nothing else, then reads the first run of decimal digits, taken
    as long as it goes, as a number in base ten, provided the run has no
    more digits than [int] converts (4300 by default); on a longer run
    [int] raises [ValueError].  With no digit, and for empty or absent
    input, the result is absent.  So [places disponibles : 42] gives 42,
    [1 234 places] with a U+202F for separator gives 1234, the empty
    string gives nothing, and [1.234 places] gives 1. *)
Theorem first_integer_is_first_digit_run :
  (forall U, extract_first_int U None = inr None
             /\ extract_first_int U (Some []) = inr None)
  /\ (forall U s,
       extract_first_int U (Some s) = extract_first_int U (Some (replace_narrow_nbsp s)))
  /\ (forall U s,
       (forall c, In c (replace_narrow_nbsp s) -> is_decimal U c = false) ->
       extract_first_int U (Some s) = inr None)
  /\ (forall U s before run after,
       replace_narrow_nbsp s = before ++ run ++ after ->
       (forall c, In c before -> is_decimal U c = false) ->
       run <> [] ->
       (forall c, In c run -> is_decimal U c = true) ->
       (forall c, hd_error after = Some c -> is_decimal U c = false) ->
       ((List.length run <= int_max_str_digits)%nat ->
        extract_first_int U (Some s) = inr (Some (int_value U run)))
       /\ ((int_max_str_digits < List.length run)%nat ->
           extract_first_int U (Some s) = inl ValueError))
  /\ (forall U, int_value U [] = 0%Z)
  /\ (forall U run c,
       int_value U (run ++ [c]) = (10 * int_value U run + digit_value U c)%Z)
  /\ extract_first_int excerpt (Some (lit "places disponibles : 42"))
     = inr (Some 42%Z)
  /\ extract_first_int excerpt (Some (lit "1" ++ narrow_nbsp :: lit "234 places"))
     = inr (Some 1234%Z)
  /\ extract_first_int excerpt (Some (lit "aucune info")) = inr None
  /\ extract_first_int excerpt (Some (lit "1.234 places")) = inr (Some 1%Z).
Proof.
  split; [|split; [|split; [|split; [|split; [|split]]]]].
  - intros U. split; reflexivity.
  - intros U s. now rewrite !extract_first_int_search, replace_narrow_nbsp_idem.
  - intros U s H. now rewrite extract_first_int_search, re_search_digits_none.
  - intros U s before run after Hs Hb Hne Hrun Hafter.
    rewrite extract_first_int_search, Hs.
    rewrite (re_search_digits_first U before run after) by assumption.
    split; intros Hlen.
    + now rewrite py_int_short.
    + now rewrite py_int_long.
  - reflexivity.
  - intros U run c. apply int_value_snoc.
  - repeat split; vm_compute; reflexivity.
Qed.

Lemma first_integer_is_first_digit_run_witness :
  extract_first_int excerpt (Some (lit "vers 1" ++ narrow_nbsp :: lit "234 places"))
  = inr (Some 1234%Z).
Proof.
  apply (proj1 (proj2 (proj2 (proj2 first_integer_is_first_digit_run))) excerpt
           (lit "vers 1" ++ narrow_nbsp :: lit "234 places")
           (lit "vers ") (lit "1234") (lit " places")).
  - vm_compute. reflexivity.
  - intros c H. vm_compute in H. repeat (destruct H as [<- | H]; [reflexivity|]). destruct H.
  - discriminate.
  - intros c H. vm_compute in H. repeat (destruct H as [<- | H]; [reflexivity|]). destruct H.
  - intros c H. injection H as <-. reflexivity.
  - apply Nat.leb_le. vm_compute. reflexivity.
Defined.

(** Against C5 as stated: on a text that is one run of 4301 digits,
    [extract_first_int] returns no value; [int] raises. *)
Lemma overlong_run_raises :
  List.length long_run = 4301%nat
  /\ forallb (is_decimal excerpt) long_run = true
  /\ extract_first_int excerpt (Some long_run) = inl ValueError.
Proof.
  split; [apply repeat_length|]. split.
  - apply forallb_forall. intros c H.
    now rewrite (repeat_spec _ _ _ H).
  - apply extract_first_int_long_repeat; [reflexivity | reflexivity |].
    apply Nat.ltb_lt. vm_compute. reflexivity.
Qed.

(** ** The region matcher *)

(** C4.  [is_ile_de_france] normalises the region and answers true exactly
    when the normalised text contains [ile] (or the accented literal of
    line 51) together with [france], or one of the two compounds; a token
    is found by substring search.  The compounds add nothing to the first
    test.  It is true of [Île-de-France], [ILE DE FRANCE] and [Region
    Ile-de-France], false of [Bretagne], of the empty string and of an
    absent region. *)
Theorem is_ile_de_france_spec :
  (forall U region,
      is_ile_de_france U region = true <->
      ((occurs (lit "ile") (norm_text U region)
        \/ occurs ile_accented (norm_text U region))
       /\ occurs (lit "france") (norm_text U region))
      \/ occurs (lit "ile-de-france") (norm_text U region)
      \/ occurs (lit "ile de france") (norm_text U region))
  /\ (forall U region,
      is_ile_de_france U region = true <->
      (occurs (lit "ile") (norm_text U region)
       \/ occurs ile_accented (norm_text U region))
      /\ occurs (lit "france") (norm_text U region))
  /\ is_ile_de_france excerpt (Some (0xCE :: lit "le-de-France")) = true
  /\ is_ile_de_france excerpt (Some (lit "ILE DE FRANCE")) = true
  /\ is_ile_de_france excerpt (Some (lit "Region Ile-de-France")) = true
  /\ is_ile_de_france excerpt (Some (lit "Bretagne")) = false
  /\ is_ile_de_france excerpt (Some []) = false
  /\ is_ile_de_france excerpt None = false.
Proof.
  assert (spec : forall U region,
      is_ile_de_france U region = true <->
      ((occurs (lit "ile") (norm_text U region)
        \/ occurs ile_accented (norm_text U region))
       /\ occurs (lit "france") (norm_text U region))
      \/ occurs (lit "ile-de-france") (norm_text U region)
      \/ occurs (lit "ile de france") (norm_text U region)).
  { intros U region. unfold is_ile_de_france.
    rewrite !orb_true_iff, !andb_true_iff, !contains_spec. tauto. }
  split; [exact spec | split].
  - intros U region. rewrite spec. split; [|tauto].
    intros [H | [H | H]]; [exact H | |].
    + split; [left|]; refine (occurs_trans _ _ _ _ H);
        apply contains_spec; vm_compute; reflexivity.
    + split; [left|]; refine (occurs_trans _ _ _ _ H);
        apply contains_spec; vm_compute; reflexivity.
  - repeat split; vm_compute; reflexivity.
Qed.

Lemma is_ile_de_france_spec_witness :
  is_ile_de_france excerpt (Some (lit "FRANCE (ILE DE)")) = true.
Proof.
  apply (proj1 is_ile_de_france_spec excerpt (Some (lit "FRANCE (ILE DE)"))).
  left. split; [left|].
  - exists (lit "france ("), (lit " de)"). vm_compute. reflexivity.
  - exists [], (lit " (ile de)"). vm_compute. reflexivity.
Defined.

(** ** The seat-count heuristic *)

Section HeuristicFacts.

Variable U : UnicodeData.

Lemma keyword_loop_spec kws info :
  keyword_loop U kws info =
  if keyword_match U kws info then extract_first_int U (description_or_title info)
  else inr None.
Proof.
  unfold keyword_match.
  induction kws as [|kw kws IH]; simpl; [reflexivity|].
  destruct (contains kw (combined U info)); simpl; [|exact IH].
  destruct (extract_first_int U (description_or_title info)) as [e|[n|]];
    simpl; [reflexivity | reflexivity |].
  rewrite IH. now destruct (existsb _ kws).
Qed.

Lemma keyword_loop_miss kws info :
  hit U kws info = false -> keyword_loop U kws info = inr None.
Proof.
  unfold hit. rewrite keyword_loop_spec.
  destruct (keyword_match U kws info); simpl; [|reflexivity].
  now destruct (extract_first_int U (description_or_title info)) as [e|[n|]].
Qed.

Lemma keyword_pass_miss kws l :
  (forall i, In i l -> hit U kws i = false) -> keyword_pass U kws l = inr None.
Proof.
  induction l as [|i l IH]; intros H; simpl; [reflexivity|].
  rewrite keyword_loop_miss by (apply H; now left). simpl.
  apply IH. intros j Hj. apply H. now right.
Qed.

Lemma keyword_pass_first kws before e after n :
  (forall i, In i before -> hit U kws i = false) ->
  keyword_match U kws e = true ->
  extract_first_int U (description_or_title e) = inr (Some n) ->
  keyword_pass U kws (before ++ e :: after) = inr (Some n).
Proof.
  intros Hb Hm He. induction before as [|i before IH]; simpl.
  - now rewrite keyword_loop_spec, Hm, He.
  - rewrite keyword_loop_miss by (apply Hb; now left). simpl.
    apply IH. intros j Hj. apply Hb. now right.
Qed.

Lemma fallback_pass_first before e after n :
  (forall i, In i before ->
             extract_first_int U (description_or_title i) = inr None) ->
  extract_first_int U (description_or_title e) = inr (Some n) ->
  fallback_pass U (before ++ e :: after) = inr (Some n).
Proof.
  intros Hb He. induction before as [|i before IH]; simpl.
  - now rewrite He.
  - rewrite (Hb i) by now left. simpl.
    apply IH. intros j Hj. apply Hb. now right.
Qed.

Lemma fallback_pass_none l :
  (forall i, In i l -> extract_first_int U (description_or_title i) = inr None) ->
  fallback_pass U l = inr None.
Proof.
  induction l as [|i l IH]; intros H; simpl; [reflexivity|].
  rewrite (H i) by now left. simpl. apply IH. intros j Hj. apply H. now right.
Qed.

Lemma seats_with_cons kws l :
  seats_with U kws (Some l) =
  n <- keyword_pass U kws l ;;
  match n with
  | Some n => inr (Some n)
  | None => fallback_pass U l
  end.
Proof. destruct l; reflexivity. Qed.

Lemma hit_without_number kws i :
  extract_first_int U (description_or_title i) = inr None -> hit U kws i = false.
Proof. intros H. unfold hit. rewrite H. apply andb_false_r. Qed.

(** What the extraction raises on the one entry of a list, the
    heuristic raises: in the first loop when the entry holds a keyword, in
    the second when it does not. *)
Lemma seats_single_raises i e :
  extract_first_int U (description_or_title i) = inl e ->
  get_available_seats_from_infos U (Some [i]) = inl e.
Proof.
  intros H. unfold get_available_seats_from_infos, seats_with.
  cbn [keyword_pass fallback_pass]. rewrite keyword_loop_spec, H.
  now destruct (keyword_match U keywords i).
Qed.

End HeuristicFacts.

Lemma combined_join U info :
  plain U space = true ->
  combined U info =
  norm_text U (Some (get_text (title info) ++ lit " " ++ get_text (description info))).
Proof.
  intros H. unfold combined.
  change (lit " " ++ ?x) with (space :: x).
  now rewrite norm_text_join.
Qed.





(** ** The keyword list *)

Lemma keywords_hold_core kw :
  In kw keywords ->
  contains (lit "available") kw = true \/ contains (lit "places") kw = true.
Proof.
  unfold keywords. intros H.
  repeat (destruct H as [<- | H]; [vm_compute; auto|]).
  destruct H.
Qed.

Lemma keyword_match_core U info :
  keyword_match U keywords info = keyword_match U core_keywords info.
Proof.
  apply eq_true_iff_eq. unfold keyword_match. rewrite !existsb_exists. split.
  - intros [kw [Hin Hc]]. destruct (keywords_hold_core kw Hin) as [H | H].
    + exists (lit "available"). split; [now left | exact (contains_trans _ _ _ H Hc)].
    + exists (lit "places"). split; [right; now left | exact (contains_trans _ _ _ H Hc)].
  - intros [kw [[<- | [<- | []]] Hc]].
    + exists (lit "available"). split; [now left | exact Hc].
    + exists (lit "places"). split; [do 5 right; now left | exact Hc].
Qed.

Lemma keyword_pass_ext U kws kws' l :
  (forall i, keyword_match U kws i = keyword_match U kws' i) ->
  keyword_pass U kws l = keyword_pass U kws' l.
Proof.
  intros H. induction l as [|i l IH]; simpl; [reflexivity|].
  now rewrite !keyword_loop_spec, H, IH.
Qed.

(** C10.  Every keyword of the list contains [available] or [places], so
    an entry passes the keyword test exactly when its combined text (the
    normalised title, a space, the normalised description) contains one of
    these two, and the whole function is the one the two keywords alone
    give.  A line that only mentions places (a total
    capacity) is read as a seat count ahead of earlier entries: for
    (Niveaux, 3 niveaux), (Salle, 200 places au total) the result is
    200. *)
Theorem keywords_collapse_to_two :
  (forall kw, In kw keywords -> occurs (lit "available") kw \/ occurs (lit "places") kw)
  /\ (forall U info,
       keyword_match U keywords info =
       contains (lit "available") (combined U info)
       || contains (lit "places") (combined U info))
  /\ (forall U infos,
       get_available_seats_from_infos U infos = seats_with U core_keywords infos)
  /\ get_available_seats_from_infos excerpt (Some [etages; capacite_places])
     = inr (Some 200%Z).
Proof.
  split; [|split; [|split]].
  - intros kw H. rewrite <- !contains_spec. now apply keywords_hold_core.
  - intros U info. rewrite keyword_match_core. unfold keyword_match, core_keywords.
    simpl. now rewrite orb_false_r.
  - intros U [l|]; [|reflexivity].
    unfold get_available_seats_from_infos. rewrite !seats_with_cons.
    now rewrite (keyword_pass_ext U keywords core_keywords l (keyword_match_core U)).
  - vm_compute. reflexivity.
Qed.

Lemma keywords_collapse_to_two_witness :
  occurs (lit "available") (lit "available seats")
  \/ occurs (lit "places") (lit "available seats").
Proof.
  apply (proj1 keywords_collapse_to_two (lit "available seats")).
  right. left. reflexivity.
Defined.

(** ** The paginator *)

Section PaginatorFacts.

Variable post : nat -> Reply ListPayload.

Lemma fetch_loop_more fuel st r results :
  page_results (post (page st)) = Some (r :: results) ->
  fetch_loop post (S fuel) st =
  fetch_loop post fuel
    {| page := S (page st);
       all_sites := all_sites st ++ r :: results;
       posted := posted st ++ [page st] |}.
Proof.
  unfold page_results. simpl.
  destruct (post (page st)) as [e | status_code body [payload_json|]]; try discriminate.
  destruct (status_code =? 200)%Z; [simpl | discriminate].
  destruct (data_results payload_json) as [| |l]; intros H;
    [discriminate | discriminate | injection H as ->].
  reflexivity.
Qed.

Lemma fetch_loop_last fuel st :
  page_results (post (page st)) = Some [] ->
  fetch_loop post (S fuel) st = (Returned (all_sites st), posted st ++ [page st]).
Proof.
  unfold page_results. simpl.
  destruct (post (page st)) as [e | status_code body [payload_json|]]; try discriminate.
  destruct (status_code =? 200)%Z; [simpl | discriminate].
  destruct (data_results payload_json) as [| |l]; intros H;
    [reflexivity | discriminate | injection H as ->; reflexivity].
Qed.

Lemma fetch_loop_refused fuel st status_code body json :
  post (page st) = Response status_code body json ->
  status_code <> 200%Z ->
  fetch_loop post (S fuel) st =
  (Raised (ListRequestFailed (page st) status_code body), posted st ++ [page st]).
Proof.
  intros H Hs. simpl. rewrite H.
  apply Z.eqb_neq in Hs. now rewrite Hs.
Qed.

Lemma fetch_loop_pages pages : forall fuel st,
  (forall i, (i < List.length pages)%nat ->
             page_results (post (page st + i)) = Some (nth i pages [])) ->
  (forall p, In p pages -> p <> []) ->
  page_results (post (page st + List.length pages)) = Some [] ->
  (List.length pages < fuel)%nat ->
  fetch_loop post fuel st =
  (Returned (all_sites st ++ List.concat pages),
   posted st ++ seq (page st) (S (List.length pages))).
Proof.
  induction pages as [|p pages IH]; intros fuel st Hp Hne Hend Hfuel;
    (destruct fuel as [|fuel]; [inversion Hfuel|]).
  - simpl in Hend. rewrite Nat.add_0_r in Hend.
    rewrite fetch_loop_last by exact Hend. simpl. now rewrite app_nil_r.
  - destruct p as [|r results]; [now elim (Hne []); [left|]|].
    pose proof (Hp 0%nat ltac:(simpl; lia)) as H0.
    rewrite Nat.add_0_r in H0. simpl in H0.
    rewrite (fetch_loop_more fuel st r results H0).
    rewrite IH; simpl.
    + now rewrite <- !app_assoc.
    + intros i Hi. specialize (Hp (S i) ltac:(simpl; lia)).
      now rewrite Nat.add_succ_r in Hp.
    + intros q Hq. apply Hne. now right.
    + simpl in Hend. now rewrite Nat.add_succ_r in Hend.
    + simpl in Hfuel. lia.
Qed.

Lemma fetch_loop_bad_status j : forall fuel st status_code body json,
  (forall i, (i < j)%nat ->
             exists r results, page_results (post (page st + i)) = Some (r :: results)) ->
  post (page st + j) = Response status_code body json ->
  status_code <> 200%Z ->
  (j < fuel)%nat ->
  fetch_loop post fuel st =
  (Raised (ListRequestFailed (page st + j) status_code body),
   posted st ++ seq (page st) (S j)).
Proof.
  induction j as [|j IH]; intros fuel st status_code body json Hp Hj Hs Hfuel;
    (destruct fuel as [|fuel]; [inversion Hfuel|]).
  - rewrite Nat.add_0_r in *. now rewrite (fetch_loop_refused fuel st status_code body json).
  - destruct (Hp 0%nat ltac:(lia)) as [r [results H0]].
    rewrite Nat.add_0_r in H0.
    rewrite (fetch_loop_more fuel st r results H0).
    rewrite (IH fuel _ status_code body json); simpl.
    + now rewrite <- app_assoc, Nat.add_succ_r.
    + intros i Hi. destruct (Hp (S i) ltac:(lia)) as [r' [results' H]].
      exists r', results'. now rewrite Nat.add_succ_r in H.
    + now rewrite Nat.add_succ_r in Hj.
    + exact Hs.
    + lia.
Qed.

End PaginatorFacts.

(** C6.  When the list endpoint serves the non-empty pages [pages], one per
    request, and then an empty page, [fetch_all_library_sites] returns
    the concatenation of the pages in the order fetched, having posted
    each page index once, from 0 up to the index of the empty page.  With
    two non-empty pages and an empty one it returns both pages' sites
    after three requests. *)
Theorem fetch_all_concatenates_pages :
  (forall post pages fuel,
      (forall i, (i < List.length pages)%nat ->
                 page_results (post i) = Some (nth i pages [])) ->
      (forall p, In p pages -> p <> []) ->
      page_results (post (List.length pages)) = Some [] ->
      (List.length pages < fuel)%nat ->
      fetch_all_library_sites post fuel =
      (Returned (List.concat pages), seq 0 (S (List.length pages))))
  /\ fetch_all_library_sites two_pages 3 =
     (Returned [bsg; champs_libres; bpi], [0; 1; 2]%nat).
Proof.
  split.
  - intros post pages fuel Hp Hne Hend Hfuel.
    unfold fetch_all_library_sites.
    now rewrite (fetch_loop_pages post pages).
  - reflexivity.
Qed.

Lemma fetch_all_concatenates_pages_witness :
  fetch_all_library_sites two_pages 5 =
  (Returned (List.concat [[bsg; champs_libres]; [bpi]]), seq 0 3).
Proof.
  apply (proj1 fetch_all_concatenates_pages two_pages
           [[bsg; champs_libres]; [bpi]] 5%nat).
  - intros [|[|i]] Hi; [reflexivity | reflexivity | simpl in Hi; lia].
  - intros p [<- | [<- | []]]; discriminate.
  - reflexivity.
  - simpl. lia.
Defined.

(** C8.  When the pages before page [j] are accepted and non-empty and the
    reply for page [j] has a status other than 200,
    [fetch_all_library_sites] raises the error that carries [j], the
    status and the body; the sites gathered so far are not returned, and
    page [j] is requested once. *)
Theorem fetch_all_fails_on_bad_status :
  (forall post j status_code body json fuel,
      (forall i, (i < j)%nat ->
                 exists r results, page_results (post i) = Some (r :: results)) ->
      post j = Response status_code body json ->
      status_code <> 200%Z ->
      (j < fuel)%nat ->
      fetch_all_library_sites post fuel =
      (Raised (ListRequestFailed j status_code body), seq 0 (S j))
      /\ count_occ Nat.eq_dec (snd (fetch_all_library_sites post fuel)) j = 1%nat)
  /\ fetch_all_library_sites second_page_refused 2 =
     (Raised (ListRequestFailed 1 503 (lit "Service Unavailable")), [0; 1]%nat).
Proof.
  split.
  - intros post j status_code body json fuel Hp Hj Hs Hfuel.
    assert (H : fetch_all_library_sites post fuel =
                (Raised (ListRequestFailed j status_code body), seq 0 (S j))).
    { unfold fetch_all_library_sites.
      now rewrite (fetch_loop_bad_status post j fuel _ status_code body json). }
    split; [exact H|]. rewrite H. cbn [snd].
    rewrite seq_S, count_occ_app. simpl.
    destruct (Nat.eq_dec j j) as [_|n]; [|now elim n].
    rewrite (proj1 (count_occ_not_In Nat.eq_dec (seq 0 j) j)); [reflexivity|].
    rewrite in_seq. lia.
  - reflexivity.
Qed.

Lemma fetch_all_fails_on_bad_status_witness :
  fetch_all_library_sites second_page_refused 4 =
  (Raised (ListRequestFailed 1 503 (lit "Service Unavailable")), seq 0 2)
  /\ count_occ Nat.eq_dec (snd (fetch_all_library_sites second_page_refused 4)) 1%nat
     = 1%nat.
Proof.
  apply (proj1 fetch_all_fails_on_bad_status second_page_refused 1%nat 503%Z
           (lit "Service Unavailable") None 4%nat).
  - intros [|i] Hi; [|lia]. exists bsg, [champs_libres]. reflexivity.
  - reflexivity.
  - discriminate.
  - lia.
Defined.

(** ** The orchestrator *)

Lemma bind_returns {A B : Type} (c : Exception + A) (k : A -> Exception + B) b :
  (x <- c ;; k x) = inr b -> exists a, c = inr a /\ k a = inr b.
Proof. destruct c as [e|a]; simpl; [discriminate | eauto]. Qed.

Section OrchestratorFacts.

Variable U : UnicodeData.
Variable post : nat -> Reply ListPayload.
Variable get : SiteKey -> Reply DetailPayload.

(** What [assemble] read when it returns. *)
Lemma assemble_returns s detail r :
  assemble U s detail = inr r ->
  exists d forecast loc,
    detail = Some d
    /\ get_available_seats_from_infos U
         (Some match get_infos d with
               | _ :: _ => get_infos d
               | [] => get_infos s
               end) = inr (Enriched.available_seats r)
    /\ get_default empty_forecast (current_forecast d) = Some forecast
    /\ Enriched.occupancy_percent r = occupancy forecast
    /\ get_default empty_location (location s) = Some loc
    /\ Enriched.latitude r =
       match summary_coordinates s with
       | Some c => latitude c
       | None => None
       end
    /\ Enriched.longitude r =
       match summary_coordinates s with
       | Some c => longitude c
       | None => None
       end
    /\ Enriched.address r = get_default empty_address (address loc)
    /\ Enriched.id r = id s /\ Enriched.slug r = slug s
    /\ Enriched.detail_url r = url d.
Proof.
  unfold assemble. intros H.
  apply bind_returns in H as [d [Hd H]].
  apply bind_returns in H as [seats [Hseats H]].
  apply bind_returns in H as [forecast [Hf H]].
  apply bind_returns in H as [loc [Hl H]].
  apply bind_returns in H as [addr [Ha H]].
  injection H as <-. exists d, forecast, loc.
  destruct detail as [d'|]; [|discriminate]. injection Hd as ->.
  unfold site_address in Ha. rewrite Hl in Ha. simpl in Ha. injection Ha as <-.
  unfold summary_coordinates.
  destruct (location s) as [| |loc'] eqn:El; try discriminate;
    simpl in Hl; injection Hl as <-;
    (destruct (get_default empty_forecast (current_forecast d)) as [f|] eqn:Ef;
     [|discriminate]); simpl in Hf; injection Hf as ->;
    repeat split; try reflexivity; try exact Hseats;
    now destruct (coordinates loc').
Qed.

(** When what [assemble] reads is there, it returns. *)
Lemma assemble_reads s d seats :
  get_available_seats_from_infos U
    (Some match get_infos d with
          | _ :: _ => get_infos d
          | [] => get_infos s
          end) = inr seats ->
  current_forecast d <> Null ->
  location s <> Null ->
  exists r, assemble U s (Some d) = inr r /\ Enriched.available_seats r = seats.
Proof.
  intros Hseats Hf Hl. unfold assemble, site_address.
  cbn beta iota zeta delta [receiver bind]. rewrite Hseats.
  destruct (current_forecast d) as [| |f]; [|now elim Hf|];
    (destruct (location s) as [| |loc]; [|now elim Hl|]); simpl;
    eexists; split; reflexivity.
Qed.

Lemma enrich_assembles s :
  exists detail, enrich U get s = assemble U s detail.
Proof. unfold enrich. eauto. Qed.

Lemma enrich_on_failure s e :
  fetch_site_detail get (site_key s) = inl e ->
  enrich U get s = assemble U s (Some s).
Proof. unfold enrich. now intros ->. Qed.

Lemma enrich_on_success s detail :
  fetch_site_detail get (site_key s) = inr detail ->
  enrich U get s = assemble U s detail.
Proof. unfold enrich. now intros ->. Qed.

(** The sites the loop of lines 127-132 keeps. *)
Lemma libraries_of_keeps sites : forall libs,
  libraries_of U sites = inr libs ->
  forall s, In s libs <-> In s sites /\ in_ile_de_france U s = inr true.
Proof.
  induction sites as [|s0 sites IH]; simpl; intros libs H s.
  - injection H as <-. simpl. tauto.
  - apply bind_returns in H as [keep [Hk H]].
    apply bind_returns in H as [libs' [Hl H]]. injection H as <-.
    specialize (IH libs' Hl s). destruct keep; simpl; rewrite IH; split.
    + intros [<- | [Hin Hs]]; auto.
    + intros [[<- | Hin] Hs]; auto.
    + intros [Hin Hs]; auto.
    + intros [[<- | Hin] Hs]; [rewrite Hk in Hs; discriminate | auto].
Qed.

(** A site the loop keeps has a location that is not null. *)
Lemma kept_site_has_location s :
  in_ile_de_france U s = inr true -> location s <> Null.
Proof.
  unfold in_ile_de_france, site_region, site_address. intros H El.
  rewrite El in H. discriminate.
Qed.

(** The records of the loop of lines 140-177, turn by turn. *)
Lemma enrich_all_returns libs : forall records,
  enrich_all U get libs = inr records <->
  Forall2 (fun s r => enrich U get s = inr r) libs records.
Proof.
  induction libs as [|s libs IH]; simpl; intros records; split.
  - intros H. injection H as <-. constructor.
  - intros H. inversion H. reflexivity.
  - intros H. apply bind_returns in H as [r [Hr H]].
    apply bind_returns in H as [rs [Hrs H]]. injection H as <-.
    constructor; [exact Hr | now apply IH].
  - intros H. inversion H as [|s' r libs' rs Hr Hrs]; subst.
    rewrite Hr. simpl. rewrite (proj2 (IH rs) Hrs). reflexivity.
Qed.

Lemma main_returns fuel records :
  main U post get fuel = Returned records <->
  exists sites libs,
    fst (fetch_all_library_sites post fuel) = Returned sites
    /\ libraries_of U sites = inr libs
    /\ enrich_all U get libs = inr records.
Proof.
  unfold main. destruct (fst (fetch_all_library_sites post fuel)) as [sites|e|].
  - destruct (libraries_of U sites) as [e|libs] eqn:El; simpl.
    + split; [discriminate|]. intros [sites' [libs' [Hs [Hl _]]]].
      injection Hs as <-. rewrite El in Hl. discriminate.
    + destruct (enrich_all U get libs) as [e|rs] eqn:Ee.
      * split; [discriminate|]. intros [sites' [libs' [Hs [Hl He]]]].
        injection Hs as <-. rewrite El in Hl. injection Hl as <-.
        rewrite Ee in He. discriminate.
      * split.
        -- intros H. injection H as <-. exists sites, libs. auto.
        -- intros [sites' [libs' [Hs [Hl He]]]].
           injection Hs as <-. rewrite El in Hl. injection Hl as <-.
           rewrite Ee in He. injection He as <-. reflexivity.
  - split; [discriminate|]. intros [sites' [libs' [Hs _]]]. discriminate.
  - split; [discriminate|]. intros [sites' [libs' [Hs _]]]. discriminate.
Qed.

Lemma record_has_site libs records r :
  Forall2 (fun s r => enrich U get s = inr r) libs records ->
  In r records -> exists s, In s libs /\ enrich U get s = inr r.
Proof.
  induction 1 as [|s r' libs records Hr _ IH]; simpl; [contradiction|].
  intros [<- | Hin]; [exists s; auto|].
  destruct (IH Hin) as [s' [Hs Hr']]. exists s'. auto.
Qed.

Lemma site_has_record libs records s :
  Forall2 (fun s r => enrich U get s = inr r) libs records ->
  In s libs -> exists r, In r records /\ enrich U get s = inr r.
Proof.
  induction 1 as [|s' r libs records Hr _ IH]; simpl; [contradiction|].
  intros [<- | Hin]; [exists r; auto|].
  destruct (IH Hin) as [r' [Hr' Hs]]. exists r'. auto.
Qed.

Lemma enrich_pairs_coordinates s r :
  (forall c, summary_coordinates s = Some c ->
             present (latitude c) = present (longitude c)) ->
  enrich U get s = inr r -> both_or_neither r.
Proof.
  intros Hs Hr. destruct (enrich_assembles s) as [detail E]. rewrite E in Hr.
  destruct (assemble_returns s detail r Hr)
    as [d [f [loc [_ [_ [_ [_ [_ [Hlat [Hlon _]]]]]]]]]].
  unfold both_or_neither. rewrite Hlat, Hlon.
  destruct (summary_coordinates s) as [c|]; [now apply Hs | reflexivity].
Qed.

Lemma assemble_raises_on_seats s d i e :
  get_infos d = [i] ->
  extract_first_int U (description_or_title i) = inl e ->
  assemble U s (Some d) = inl e.
Proof.
  intros Hi He. unfold assemble. cbn beta iota zeta delta [receiver bind].
  rewrite Hi. now rewrite (seats_single_raises U i e He).
Qed.

Lemma libraries_of_raises before s after e :
  (forall s', In s' before -> exists b, in_ile_de_france U s' = inr b) ->
  in_ile_de_france U s = inl e ->
  libraries_of U (before ++ s :: after) = inl e.
Proof.
  intros Hb Hs. induction before as [|s0 before IH]; simpl.
  - now rewrite Hs.
  - destruct (Hb s0 (or_introl eq_refl)) as [b ->]. simpl.
    rewrite IH; [reflexivity|]. intros s' H. apply Hb. now right.
Qed.

Lemma enrich_all_raises before s after e :
  (forall s', In s' before -> exists r, enrich U get s' = inr r) ->
  enrich U get s = inl e ->
  enrich_all U get (before ++ s :: after) = inl e.
Proof.
  intros Hb Hs. induction before as [|s0 before IH]; simpl.
  - now rewrite Hs.
  - destruct (Hb s0 (or_introl eq_refl)) as [r ->]. simpl.
    rewrite IH; [reflexivity|]. intros s' H. apply Hb. now right.
Qed.

Lemma main_raises_in_turn fuel sites before s after e :
  fst (fetch_all_library_sites post fuel) = Returned sites ->
  libraries_of U sites = inr (before ++ s :: after) ->
  (forall s', In s' before -> exists r, enrich U get s' = inr r) ->
  enrich U get s = inl e ->
  main U post get fuel = Raised e.
Proof.
  intros Hf Hl Hb Hs. unfold main. rewrite Hf, Hl. simpl.
  now rewrite (enrich_all_raises before s after e Hb Hs).
Qed.

End OrchestratorFacts.

(** The turn of [overlong] when its detail fetch fails. *)
Lemma enrich_overlong get e :
  fetch_site_detail get (site_key overlong) = inl e ->
  enrich excerpt get overlong = inl ValueError.
Proof.
  intros H. rewrite (enrich_on_failure excerpt get overlong e H).
  apply (assemble_raises_on_seats excerpt overlong overlong
           (entry (lit "Places") long_run)); [reflexivity|].
  change (description_or_title (entry (lit "Places") long_run))
    with (Some long_run).
  apply extract_first_int_long_repeat; [reflexivity | reflexivity |].
  apply Nat.ltb_lt. vm_compute. reflexivity.
Qed.








(** * Further properties *)

(** ** Normalised text *)

(** X1.  With consistent tables, the text [norm_text] returns holds only
    starters that have no decomposition and that lower-casing leaves
    alone: no combining mark, no precomposed letter, no capital sigma. *)
Theorem norm_text_output_is_plain U :
  consistent U = true ->
  forall x c,
    In c (norm_text U x) ->
    combining U c = 0 /\ decomposition U c = [c]
    /\ to_lower_full U c = [c] /\ c <> capital_sigma.
Proof.
  intros tables x c Hc.
  pose proof (norm_text_lower_fixed U tables x) as H.
  rewrite forallb_forall in H.
  destruct (lower_fixed_parts U c (H c Hc)) as [Hd [Hs [Hl Hn]]].
  repeat split; auto.
  - now apply N.eqb_eq.
  - now apply N.eqb_neq.
Qed.

Lemma norm_text_output_is_plain_witness :
  combining excerpt 0x69 = 0 /\ decomposition excerpt 0x69 = [0x69]
  /\ to_lower_full excerpt 0x69 = [0x69] /\ 0x69 <> capital_sigma.
Proof.
  apply (norm_text_output_is_plain excerpt eq_refl
           (Some (0xCE :: lit "le-de-France")) 0x69).
  vm_compute. left. reflexivity.
Defined.

Lemma occurs_in p s c : occurs p s -> In c p -> In c s.
Proof.
  intros [before [after ->]] H. apply in_or_app. right.
  apply in_or_app. now left.
Qed.

(** X2.  With consistent tables in which U+00EE decomposes, the accented
    literal of line 51 is never found in the normalised region, and the
    two compounds of lines 52-53 never decide: [is_ile_de_france] is the
    test of line 50 alone. *)
Theorem accented_literal_never_matches U :
  consistent U = true ->
  stable U 0xEE = false ->
  forall region,
    contains ile_accented (norm_text U region) = false
    /\ is_ile_de_france U region =
       contains (lit "ile") (norm_text U region)
       && contains (lit "france") (norm_text U region).
Proof.
  intros tables H region.
  assert (Hn : contains ile_accented (norm_text U region) = false).
  { destruct (contains ile_accented (norm_text U region)) eqn:E; [|reflexivity].
    apply contains_spec in E.
    assert (Hin : In 0xEE (norm_text U region))
      by (apply (occurs_in ile_accented); [exact E | now left]).
    pose proof (norm_text_lower_fixed U tables region) as Hf.
    rewrite forallb_forall in Hf. specialize (Hf _ Hin).
    unfold lower_fixed in Hf. rewrite H in Hf. discriminate. }
  split; [exact Hn|].
  assert (Hc : forall compound,
             contains (lit "ile") compound = true ->
             contains (lit "france") compound = true ->
             contains compound (norm_text U region) = true ->
             contains (lit "ile") (norm_text U region)
             && contains (lit "france") (norm_text U region) = true).
  { intros compound Hi Hf Hc. apply andb_true_iff.
    split; [exact (contains_trans _ _ _ Hi Hc) | exact (contains_trans _ _ _ Hf Hc)]. }
  unfold is_ile_de_france. rewrite Hn. simpl. rewrite orb_false_r.
  destruct (contains (lit "ile-de-france") (norm_text U region)) eqn:E1.
  - rewrite (Hc (lit "ile-de-france") eq_refl eq_refl E1). reflexivity.
  - destruct (contains (lit "ile de france") (norm_text U region)) eqn:E2.
    + rewrite (Hc (lit "ile de france") eq_refl eq_refl E2). reflexivity.
    + now rewrite !orb_false_r.
Qed.

Lemma accented_literal_never_matches_witness :
  contains ile_accented (norm_text excerpt (Some (0xEE :: lit "le de france"))) = false
  /\ is_ile_de_france excerpt (Some (0xEE :: lit "le de france")) =
     contains (lit "ile") (norm_text excerpt (Some (0xEE :: lit "le de france")))
     && contains (lit "france") (norm_text excerpt (Some (0xEE :: lit "le de france"))).
Proof.
  apply (accented_literal_never_matches excerpt eq_refl eq_refl).
Defined.

(** ** Extracted numbers *)

Section NumberFacts.

Variable U : UnicodeData.

Lemma digit_value_nonneg c : (0 <= digit_value U c)%Z.
Proof.
  unfold digit_value. destruct (decimal U c); [apply N2Z.is_nonneg | reflexivity].
Qed.

Lemma fold_digits_nonneg run acc :
  (0 <= acc)%Z ->
  (0 <= fold_left (fun a c => (10 * a + digit_value U c)%Z) run acc)%Z.
Proof.
  revert acc. induction run as [|c run IH]; intros acc H; cbn [fold_left];
    [exact H|].
  apply IH. pose proof (digit_value_nonneg c). lia.
Qed.

Lemma py_int_nonneg run n : py_int U run = inr n -> (0 <= n)%Z.
Proof.
  unfold py_int. destruct (_ <? _)%nat; [discriminate|].
  intros H. injection H as <-. now apply fold_digits_nonneg.
Qed.

Lemma extract_first_int_nonneg s n :
  extract_first_int U s = inr (Some n) -> (0 <= n)%Z.
Proof.
  destruct s as [[|c s]|]; try discriminate. unfold extract_first_int.
  destruct (re_search_digits U _) as [m|]; [|discriminate].
  destruct (py_int U m) as [e|k] eqn:E; [discriminate|]. simpl.
  intros H. injection H as <-. now apply (py_int_nonneg m).
Qed.

Lemma fallback_pass_source l n :
  fallback_pass U l = inr (Some n) ->
  exists i, In i l /\ extract_first_int U (description_or_title i) = inr (Some n).
Proof.
  induction l as [|i l IH]; simpl; [discriminate|].
  destruct (extract_first_int U (description_or_title i)) as [e|[m|]] eqn:E;
    simpl; [discriminate | |].
  - intros H. injection H as <-. exists i. auto.
  - intros H. destruct (IH H) as [j [Hj Hn]]. exists j. auto.
Qed.

Lemma keyword_pass_source kws l n :
  keyword_pass U kws l = inr (Some n) ->
  exists i, In i l /\ extract_first_int U (description_or_title i) = inr (Some n).
Proof.
  induction l as [|i l IH]; simpl; [discriminate|].
  rewrite keyword_loop_spec.
  destruct (keyword_match U kws i).
  - destruct (extract_first_int U (description_or_title i)) as [e|[m|]] eqn:E;
      simpl; [discriminate | |].
    + intros H. injection H as <-. exists i. auto.
    + intros H. destruct (IH H) as [j [Hj Hn]]. exists j. auto.
  - simpl. intros H. destruct (IH H) as [j [Hj Hn]]. exists j. auto.
Qed.

Lemma seats_source infos n :
  get_available_seats_from_infos U infos = inr (Some n) ->
  exists l i, infos = Some l /\ In i l
              /\ extract_first_int U (description_or_title i) = inr (Some n).
Proof.
  destruct infos as [l|]; [|discriminate].
  unfold get_available_seats_from_infos. rewrite seats_with_cons.
  destruct (keyword_pass U keywords l) as [e|[m|]] eqn:E; simpl; [discriminate | |].
  - intros H. injection H as <-.
    destruct (keyword_pass_source _ _ _ E) as [i [Hi Hn]]. exists l, i. auto.
  - intros H. destruct (fallback_pass_source _ _ H) as [i [Hi Hn]].
    exists l, i. auto.
Qed.

Lemma fallback_pass_none_inv l :
  fallback_pass U l = inr None ->
  forall i, In i l -> extract_first_int U (description_or_title i) = inr None.
Proof.
  induction l as [|j l IH]; simpl; [contradiction|].
  destruct (extract_first_int U (description_or_title j)) as [e|[m|]] eqn:E;
    simpl; [discriminate | discriminate |].
  intros H i [<- | Hi]; [exact E | now apply IH].
Qed.

Lemma seats_none_without_numbers l :
  (forall i, In i l -> extract_first_int U (description_or_title i) = inr None) ->
  get_available_seats_from_infos U (Some l) = inr None.
Proof.
  intros H. unfold get_available_seats_from_infos.
  rewrite seats_with_cons, keyword_pass_miss.
  - simpl. now apply fallback_pass_none.
  - intros i Hi. apply hit_without_number. now apply H.
Qed.

End NumberFacts.

(** X3.  A number the program extracts is never negative: what
    [extract_first_int] returns, what the seat heuristic returns, and the
    [available_seats] of every record [main] builds.  A sign before the
    digits is not read. *)
Theorem extracted_numbers_are_nonnegative :
  forall U,
    (forall s n, extract_first_int U s = inr (Some n) -> (0 <= n)%Z)
    /\ (forall infos n,
           get_available_seats_from_infos U infos = inr (Some n) -> (0 <= n)%Z)
    /\ (forall get s r n,
           enrich U get s = inr r ->
           Enriched.available_seats r = Some n -> (0 <= n)%Z).
Proof.
  intros U. split; [|split].
  - apply extract_first_int_nonneg.
  - intros infos n H. destruct (seats_source U infos n H) as [l [i [_ [_ Hn]]]].
    now apply (extract_first_int_nonneg U _ n Hn).
  - intros get s r n Hr Hn. destruct (enrich_assembles U get s) as [detail E].
    rewrite E in Hr.
    destruct (assemble_returns U s detail r Hr) as [d [f [loc [_ [Hseats _]]]]].
    rewrite Hn in Hseats.
    destruct (seats_source U _ n Hseats) as [l [i [_ [_ Hi]]]].
    now apply (extract_first_int_nonneg U _ n Hi).
Qed.

Lemma extracted_numbers_are_nonnegative_witness :
  (0 <= 5)%Z.
Proof.
  apply (proj1 (extracted_numbers_are_nonnegative excerpt) (Some (lit "-5 places")) 5%Z).
  vm_compute. reflexivity.
Defined.

(** X4.  The seat heuristic returns a number exactly when some entry's
    description (or title, for an empty description) holds a digit, and
    the number it returns is the one extracted from one of the entries. *)
Theorem seats_found_iff_some_entry_has_digits :
  forall U l,
    (get_available_seats_from_infos U (Some l) = inr None <->
     forall i, In i l -> extract_first_int U (description_or_title i) = inr None)
    /\ (forall n,
           get_available_seats_from_infos U (Some l) = inr (Some n) ->
           exists i, In i l
                     /\ extract_first_int U (description_or_title i) = inr (Some n)).
Proof.
  intros U l. split.
  - split; [|apply seats_none_without_numbers].
    unfold get_available_seats_from_infos. rewrite seats_with_cons.
    destruct (keyword_pass U keywords l) as [e|[m|]]; simpl;
      [discriminate | discriminate |].
    apply fallback_pass_none_inv.
  - intros n H. destruct (seats_source U _ n H) as [l' [i [Hl [Hi Hn]]]].
    injection Hl as <-. exists i. auto.
Qed.

Lemma seats_found_iff_some_entry_has_digits_witness :
  get_available_seats_from_infos excerpt (Some [wifi]) = inr None.
Proof.
  apply (proj1 (seats_found_iff_some_entry_has_digits excerpt [wifi])).
  intros i [<- | []]. vm_compute. reflexivity.
Defined.

(** ** Entries that carry no number *)

Section TransparentEntries.

Variable U : UnicodeData.

Lemma keyword_pass_filter kws l :
  keyword_pass U kws
    (filter (fun i => negb (finds_nothing (extract_first_int U (description_or_title i)))) l)
  = keyword_pass U kws l.
Proof.
  induction l as [|i l IH]; simpl; [reflexivity|].
  destruct (extract_first_int U (description_or_title i)) as [e|[n|]] eqn:E; simpl.
  - now rewrite IH.
  - now rewrite IH.
  - rewrite IH, keyword_loop_spec, E. now destruct (keyword_match U kws i).
Qed.

Lemma fallback_pass_filter l :
  fallback_pass U
    (filter (fun i => negb (finds_nothing (extract_first_int U (description_or_title i)))) l)
  = fallback_pass U l.
Proof.
  induction l as [|i l IH]; simpl; [reflexivity|].
  destruct (extract_first_int U (description_or_title i)) as [e|[n|]] eqn:E; simpl.
  - now rewrite E.
  - now rewrite E.
  - exact IH.
Qed.

Lemma seats_filter l :
  get_available_seats_from_infos U
    (Some (filter (fun i => negb (finds_nothing (extract_first_int U (description_or_title i)))) l))
  = get_available_seats_from_infos U (Some l).
Proof.
  unfold get_available_seats_from_infos.
  now rewrite !seats_with_cons, keyword_pass_filter, fallback_pass_filter.
Qed.

Lemma description_shadows_title info c d :
  description info = Some (c :: d) ->
  description_or_title info = Some (c :: d).
Proof. unfold description_or_title. now intros ->. Qed.

End TransparentEntries.

(** X5.  Entries in which no integer is found never change the result:
    dropping them from the list, wherever they stand and whatever
    keywords they hold, leaves what the seat heuristic returns. *)
Theorem entries_without_number_are_transparent :
  forall U l,
    get_available_seats_from_infos U
      (Some (filter
               (fun i => negb (finds_nothing
                                 (extract_first_int U (description_or_title i))))
               l))
    = get_available_seats_from_infos U (Some l).
Proof. intros U l. apply seats_filter. Qed.

(** X6.  The title is read for a number only when the description is
    empty: a list whose entries all have a non-empty description without
    a digit gives no seat count, whatever numbers and keywords the titles
    hold. *)
Theorem title_number_is_ignored_beside_a_description :
  forall U l,
    (forall i, In i l ->
       exists c d, description i = Some (c :: d)
                   /\ forall x, In x (replace_narrow_nbsp (c :: d)) ->
                                is_decimal U x = false) ->
    get_available_seats_from_infos U (Some l) = inr None.
Proof.
  intros U l H. apply seats_none_without_numbers.
  intros i Hi. destruct (H i Hi) as [c [d [Hd Hx]]].
  rewrite (description_shadows_title i c d Hd).
  now rewrite extract_first_int_search, re_search_digits_none.
Qed.

Lemma title_number_is_ignored_beside_a_description_witness :
  get_available_seats_from_infos excerpt
    (Some [entry (lit "12 places disponibles") (lit "libres")]) = inr None.
Proof.
  apply (title_number_is_ignored_beside_a_description excerpt).
  intros i [<- | []]. exists 0x6C, (lit "ibres"). split; [reflexivity|].
  intros x Hx. vm_compute in Hx.
  repeat (destruct Hx as [<- | Hx]; [reflexivity|]). destruct Hx.
Defined.

(** ** More on the paginator *)

Section PaginatorMore.

Variable post : nat -> Reply ListPayload.

Lemma fetch_loop_log fuel : forall st,
  exists n, (n <= fuel)%nat
            /\ snd (fetch_loop post fuel st) = posted st ++ seq (page st) n
            /\ (fst (fetch_loop post fuel st) <> OutOfFuel -> (1 <= n)%nat).
Proof.
  induction fuel as [|fuel IH]; intros st.
  - exists 0%nat. simpl. rewrite app_nil_r. split; [lia|]. split; [reflexivity|].
    intros H. now elim H.
  - cbn [fetch_loop].
    destruct (post (page st)) as [e | status_code body json].
    + exists 1%nat. simpl. split; [lia|]. split; [reflexivity | intros _; lia].
    + destruct (negb (status_code =? 200)%Z).
      * exists 1%nat. simpl. split; [lia|]. split; [reflexivity | intros _; lia].
      * destruct json as [payload_json|];
          [|exists 1%nat; simpl; split; [lia|]; split; [reflexivity | intros _; lia]].
        destruct (data_results payload_json) as [| |[|r results]];
          try (exists 1%nat; simpl; split; [lia|]; split; [reflexivity | intros _; lia]).
        destruct (IH {| page := S (page st);
                        all_sites := all_sites st ++ r :: results;
                        posted := posted st ++ [page st] |}) as [n [Hn [Hl _]]].
        exists (S n). split; [lia|]. split; [|intros _; lia].
        rewrite Hl. simpl. now rewrite <- app_assoc.
Qed.

Lemma fetch_loop_skip j : forall fuel st,
  (forall i, (i < j)%nat ->
             exists r results, page_results (post (page st + i)) = Some (r :: results)) ->
  exists sites,
    fetch_loop post (j + fuel) st =
    fetch_loop post fuel
      {| page := page st + j;
         all_sites := all_sites st ++ sites;
         posted := posted st ++ seq (page st) j |}.
Proof.
  induction j as [|j IH]; intros fuel st Hp.
  - exists []. simpl. rewrite Nat.add_0_r, !app_nil_r. now destruct st.
  - destruct (Hp 0%nat ltac:(lia)) as [r [results H0]].
    rewrite Nat.add_0_r in H0.
    destruct (IH fuel {| page := S (page st);
                         all_sites := all_sites st ++ r :: results;
                         posted := posted st ++ [page st] |}) as [sites Hs].
    { intros i Hi. destruct (Hp (S i) ltac:(lia)) as [r' [results' H]].
      exists r', results'. simpl. now rewrite Nat.add_succ_r in H. }
    exists ((r :: results) ++ sites).
    change (S j + fuel)%nat with (S (j + fuel)).
    rewrite (fetch_loop_more post (j + fuel) st r results H0), Hs. simpl.
    now rewrite <- !app_assoc, Nat.add_succ_r.
Qed.

Lemma fetch_loop_returned fuel : forall st sites log,
  fetch_loop post fuel st = (Returned sites, log) ->
  exists pages,
    sites = all_sites st ++ List.concat pages
    /\ (forall i, (i < List.length pages)%nat ->
           page_results (post (page st + i)) = Some (nth i pages [])
           /\ nth i pages [] <> [])
    /\ page_results (post (page st + List.length pages)) = Some []
    /\ log = posted st ++ seq (page st) (S (List.length pages)).
Proof.
  induction fuel as [|fuel IH]; intros st sites log; [discriminate|].
  destruct (page_results (post (page st))) as [[|r results]|] eqn:E.
  - rewrite (fetch_loop_last post fuel st E). intros H. injection H as <- <-.
    exists []. simpl. rewrite app_nil_r, Nat.add_0_r.
    split; [reflexivity|]. split; [intros i Hi; lia|]. split; [exact E | reflexivity].
  - rewrite (fetch_loop_more post fuel st r results E). intros H.
    destruct (IH _ _ _ H) as [pages [Hs [Hp [He Hl]]]]. simpl in *.
    exists ((r :: results) :: pages). split; [|split; [|split]].
    + rewrite Hs. simpl. now rewrite <- app_assoc.
    + intros [|i] Hi.
      * rewrite Nat.add_0_r. simpl. split; [exact E | discriminate].
      * rewrite Nat.add_succ_r. simpl. apply Hp. simpl in Hi. lia.
    + simpl. now rewrite Nat.add_succ_r.
    + rewrite Hl. simpl. now rewrite <- app_assoc.
  - unfold page_results in E. cbn [fetch_loop].
    destruct (post (page st)) as [e | status_code body [payload_json|]];
      try discriminate.
    + destruct (negb (status_code =? 200)%Z) eqn:Es; [discriminate|].
      apply negb_false_iff in Es. rewrite Es in E.
      now destruct (data_results payload_json).
    + now destruct (negb (status_code =? 200)%Z).
Qed.

End PaginatorMore.

(** X7.  Whatever the list endpoint answers, the pages
    [fetch_all_library_sites] requests are 0, 1, 2, ... without a gap or a
    repeat: a page is never requested twice and never skipped, and at
    least one request is made before the function returns or raises. *)
Theorem pages_are_requested_in_order :
  forall post fuel,
    exists n, (n <= fuel)%nat
              /\ snd (fetch_all_library_sites post fuel) = seq 0 n
              /\ (fst (fetch_all_library_sites post fuel) <> OutOfFuel ->
                  (1 <= n)%nat).
Proof.
  intros post fuel. unfold fetch_all_library_sites.
  destruct (fetch_loop_log post fuel {| page := 0; all_sites := []; posted := [] |})
    as [n [Hn [Hl H1]]].
  exists n. auto.
Qed.

(** X8.  The loop has no bound on the number of pages: against an endpoint
    that never serves an empty page, it neither returns nor raises,
    however long it runs, and it keeps requesting the next page. *)
Theorem fetch_all_never_stops_without_an_empty_page :
  forall post,
    (forall i, exists r results, page_results (post i) = Some (r :: results)) ->
    forall fuel,
      fst (fetch_all_library_sites post fuel) = OutOfFuel
      /\ snd (fetch_all_library_sites post fuel) = seq 0 fuel.
Proof.
  intros post Hp fuel. unfold fetch_all_library_sites.
  destruct (fetch_loop_skip post fuel 0 {| page := 0; all_sites := []; posted := [] |})
    as [sites Hs].
  { intros i _. apply Hp. }
  rewrite Nat.add_0_r in Hs. rewrite Hs. simpl. auto.
Qed.

Lemma fetch_all_never_stops_without_an_empty_page_witness :
  fst (fetch_all_library_sites (fun _ => ok_page [bsg]) 7) = OutOfFuel
  /\ snd (fetch_all_library_sites (fun _ => ok_page [bsg]) 7) = seq 0 7.
Proof.
  apply (fetch_all_never_stops_without_an_empty_page (fun _ => ok_page [bsg])).
  intros i. exists bsg, []. reflexivity.
Defined.

(** X9.  A request that raises, or a reply with status 200 whose body is
    not JSON, stops the loop like a bad status does: after accepted
    non-empty pages 0 to [j - 1], the error of page [j] is raised, no
    site is returned, and page [j] is the last one requested. *)
Theorem fetch_all_propagates_transport_and_decoding_errors :
  forall post j fuel,
    (forall i, (i < j)%nat ->
               exists r results, page_results (post i) = Some (r :: results)) ->
    (j < fuel)%nat ->
    (forall e, post j = Unreachable e ->
               fetch_all_library_sites post fuel =
               (Raised (TransportError e), seq 0 (S j)))
    /\ (forall body, post j = Response 200 body None ->
               fetch_all_library_sites post fuel =
               (Raised JSONDecodeError, seq 0 (S j))).
Proof.
  intros post j fuel Hp Hfuel. unfold fetch_all_library_sites.
  destruct (fetch_loop_skip post j (fuel - j)
              {| page := 0; all_sites := []; posted := [] |}) as [sites Hs].
  { intros i Hi. now apply Hp. }
  replace (j + (fuel - j))%nat with fuel in Hs by lia. rewrite Hs.
  destruct (fuel - j)%nat as [|k] eqn:Ek; [lia|].
  rewrite seq_S.
  split; intros x Hx; cbn [fetch_loop page posted Nat.add]; rewrite Hx;
    reflexivity.
Qed.

Lemma fetch_all_propagates_transport_and_decoding_errors_witness :
  fetch_all_library_sites
    (fun page => match page with
                 | 0%nat => ok_page [bsg]
                 | _ => Unreachable (lit "timed out")
                 end) 3
  = (Raised (TransportError (lit "timed out")), seq 0 2).
Proof.
  apply (proj1 (fetch_all_propagates_transport_and_decoding_errors
                  (fun page => match page with
                               | 0%nat => ok_page [bsg]
                               | _ => Unreachable (lit "timed out")
                               end) 1%nat 3%nat
                  ltac:(intros [|i] Hi; [exists bsg, []; reflexivity | lia])
                  ltac:(lia))).
  reflexivity.
Defined.

(** X10.  Whenever [fetch_all_library_sites] returns, it has been served
    some non-empty pages and then an empty one (or one without results),
    all with status 200, and what it returns is those pages joined in
    order; the requests stop at the empty page. *)
Theorem fetch_all_returns_only_whole_runs :
  forall post fuel sites log,
    fetch_all_library_sites post fuel = (Returned sites, log) ->
    exists pages,
      sites = List.concat pages
      /\ (forall i, (i < List.length pages)%nat ->
             page_results (post i) = Some (nth i pages [])
             /\ nth i pages [] <> [])
      /\ page_results (post (List.length pages)) = Some []
      /\ log = seq 0 (S (List.length pages)).
Proof.
  intros post fuel sites log H.
  destruct (fetch_loop_returned post fuel _ _ _ H) as [pages Hp].
  exists pages. exact Hp.
Qed.

Lemma fetch_all_returns_only_whole_runs_witness :
  exists pages,
    [bsg; champs_libres; bpi] = List.concat pages
    /\ (forall i, (i < List.length pages)%nat ->
           page_results (two_pages i) = Some (nth i pages [])
           /\ nth i pages [] <> [])
    /\ page_results (two_pages (List.length pages)) = Some []
    /\ [0; 1; 2]%nat = seq 0 (S (List.length pages)).
Proof.
  apply (fetch_all_returns_only_whole_runs two_pages 3%nat).
  reflexivity.
Defined.

(** X22.  A reply with status 200 whose [data] holds null stops the loop
    too, with the [AttributeError] of line 68: after accepted non-empty
    pages 0 to [j - 1] no site is returned, page [j] is the last one
    requested, and [main] raises the same. *)
Theorem null_data_aborts_the_listing :
  forall post j fuel body,
    (forall i, (i < j)%nat ->
               exists r results, page_results (post i) = Some (r :: results)) ->
    (j < fuel)%nat ->
    post j = Response 200 body (Some {| data_results := Null |}) ->
    fetch_all_library_sites post fuel = (Raised AttributeError, seq 0 (S j))
    /\ forall U get, main U post get fuel = Raised AttributeError.
Proof.
  intros post j fuel body Hp Hfuel Hj.
  assert (E : fetch_all_library_sites post fuel
              = (Raised AttributeError, seq 0 (S j))).
  { unfold fetch_all_library_sites.
    destruct (fetch_loop_skip post j (fuel - j)
                {| page := 0; all_sites := []; posted := [] |}) as [sites Hs].
    { intros i Hi. now apply Hp. }
    replace (j + (fuel - j))%nat with fuel in Hs by lia. rewrite Hs.
    destruct (fuel - j)%nat as [|k] eqn:Ek; [lia|].
    rewrite seq_S. cbn [fetch_loop page posted Nat.add]. rewrite Hj.
    reflexivity. }
  split; [exact E|]. intros U get. unfold main. now rewrite E.
Qed.

Lemma null_data_aborts_the_listing_witness :
  fetch_all_library_sites
    (fun page => match page with
                 | 0%nat => ok_page [bsg]
                 | _ => Response 200 (lit "{...}") (Some {| data_results := Null |})
                 end) 3
  = (Raised AttributeError, seq 0 2)
  /\ forall U get,
       main U
         (fun page => match page with
                      | 0%nat => ok_page [bsg]
                      | _ => Response 200 (lit "{...}")
                               (Some {| data_results := Null |})
                      end) get 3
       = Raised AttributeError.
Proof.
  apply (null_data_aborts_the_listing
           (fun page => match page with
                        | 0%nat => ok_page [bsg]
                        | _ => Response 200 (lit "{...}")
                                 (Some {| data_results := Null |})
                        end) 1%nat 3%nat (lit "{...}")).
  - intros [|i] Hi; [exists bsg, []; reflexivity | lia].
  - lia.
  - reflexivity.
Defined.

(** ** More on the orchestrator *)

Section OrchestratorMore.

Variable U : UnicodeData.
Variable post : nat -> Reply ListPayload.
Variable get : SiteKey -> Reply DetailPayload.

Lemma in_ile_de_france_raises s e :
  in_ile_de_france U s = inl e <->
  e = AttributeError
  /\ (location s = Null
      \/ exists loc, location s = Holds loc /\ address loc = Null).
Proof.
  unfold in_ile_de_france, site_region, site_address.
  destruct (location s) as [| |loc]; simpl.
  - split; [discriminate|]. intros [_ [H | [loc [H _]]]]; discriminate.
  - split.
    + intros H. injection H as <-. auto.
    + now intros [-> _].
  - destruct (address loc) as [| |a] eqn:Ea; simpl.
    + split; [discriminate|]. intros [_ [H | [loc' [H H']]]]; [discriminate|].
      injection H as <-. rewrite Ea in H'. discriminate.
    + split.
      * intros H. injection H as <-. split; [reflexivity|]. right. eauto.
      * now intros [-> _].
    + split; [discriminate|]. intros [_ [H | [loc' [H H']]]]; [discriminate|].
      injection H as <-. rewrite Ea in H'. discriminate.
Qed.

(** The address of the record of a site the loop of lines 127-132 kept. *)
Lemma kept_site_record_address s r :
  in_ile_de_france U s = inr true ->
  enrich U get s = inr r ->
  Enriched.address r <> None.
Proof.
  intros Hk Hr. destruct (enrich_assembles U get s) as [detail E].
  rewrite E in Hr.
  destruct (assemble_returns U s detail r Hr)
    as [d [f [loc [_ [_ [_ [_ [Hl [_ [_ [Ha _]]]]]]]]]]].
  rewrite Ha. unfold in_ile_de_france, site_region, site_address in Hk.
  rewrite Hl in Hk. simpl in Hk.
  destruct (get_default empty_address (address loc)); [discriminate|].
  discriminate.
Qed.

End OrchestratorMore.

(** When a turn of the marker loop raises, and what. *)
Lemma marker_of_raises r e :
  marker_of r = inl e <->
  present (Enriched.latitude r) && present (Enriched.longitude r) = true
  /\ ((e = AttributeError /\ Enriched.address r = None)
      \/ (e = TypeError
          /\ exists a, Enriched.address r = Some a
                       /\ (route a = Null \/ city a = Null))).
Proof.
  unfold marker_of, marker_addr.
  destruct (Enriched.latitude r) as [lat|]; cbn [present andb];
    [|split; [discriminate | now intros [H _]]].
  destruct (Enriched.longitude r) as [lon|]; cbn [present];
    [|split; [discriminate | now intros [H _]]].
  destruct (Enriched.address r) as [a|]; cbn [receiver bind].
  - destruct (route a) as [| |t] eqn:Er; cbn [get_default str_operand bind].
    + destruct (city a) as [| |c] eqn:Ec; cbn [get_default str_operand bind].
      * split; [discriminate|].
        intros [_ [[_ H] | [_ [a' [H [H' | H']]]]]]; try discriminate;
          injection H as <-; congruence.
      * split.
        -- intros H. injection H as <-. split; [reflexivity|]. right.
           split; [reflexivity|]. exists a. auto.
        -- intros [_ [[_ H] | [-> _]]]; [discriminate | reflexivity].
      * split; [discriminate|].
        intros [_ [[_ H] | [_ [a' [H [H' | H']]]]]]; try discriminate;
          injection H as <-; congruence.
    + split.
      * intros H. injection H as <-. split; [reflexivity|]. right.
        split; [reflexivity|]. exists a. auto.
      * intros [_ [[_ H] | [-> _]]]; [discriminate | reflexivity].
    + destruct (city a) as [| |c] eqn:Ec; cbn [get_default str_operand bind].
      * split; [discriminate|].
        intros [_ [[_ H] | [_ [a' [H [H' | H']]]]]]; try discriminate;
          injection H as <-; congruence.
      * split.
        -- intros H. injection H as <-. split; [reflexivity|]. right.
           split; [reflexivity|]. exists a. auto.
        -- intros [_ [[_ H] | [-> _]]]; [discriminate | reflexivity].
      * split; [discriminate|].
        intros [_ [[_ H] | [_ [a' [H [H' | H']]]]]]; try discriminate;
          injection H as <-; congruence.
  - split.
    + intros H. injection H as <-. split; [reflexivity|]. now left.
    + intros [_ [[-> _] | [_ [a [H _]]]]]; [reflexivity | discriminate].
Qed.

(** The marker loop raises what the turn of one of the records raises,
    and returns only when every turn does. *)
Lemma markers_raises enriched e :
  markers enriched = inl e ->
  exists r, In r enriched /\ marker_of r = inl e.
Proof.
  induction enriched as [|r rest IH]; [discriminate|]. cbn [markers].
  destruct (marker_of r) as [e'|m] eqn:Em; cbn [bind].
  - intros H. injection H as <-. exists r. split; [now left | exact Em].
  - destruct (markers rest) as [e'|ms]; cbn [bind]; [|discriminate].
    intros H. injection H as <-. destruct (IH eq_refl) as [r' [Hr Hm]].
    exists r'. split; [now right | exact Hm].
Qed.

Lemma markers_returns enriched ms r :
  markers enriched = inr ms ->
  In r enriched ->
  exists m, marker_of r = inr m.
Proof.
  revert ms. induction enriched as [|r0 rest IH]; intros ms H Hr; [destruct Hr|].
  cbn [markers] in H. apply bind_returns in H as [m [Hm H]].
  apply bind_returns in H as [ms' [Hms _]].
  destruct Hr as [<- | Hr]; [eauto | now apply (IH ms')].
Qed.

(** X11.  When the detail fetch succeeds, a non-empty [infos] of the detail
    is the only list read for the seat count: if no integer is found in
    it the count is absent, whatever the summary's [infos] hold, and if
    the extraction raises on it the turn raises.  The summary's list is
    read only when the detail's is missing or empty. *)
Theorem detail_infos_shadow_the_summary :
  forall U get s detail,
    fetch_site_detail get (site_key s) = inr (Some detail) ->
    (forall r,
        enrich U get s = inr r -> get_infos detail <> [] ->
        get_available_seats_from_infos U (Some (get_infos detail))
        = inr (Enriched.available_seats r))
    /\ (forall r,
           enrich U get s = inr r -> get_infos detail <> [] ->
           (forall i, In i (get_infos detail) ->
                      extract_first_int U (description_or_title i) = inr None) ->
           Enriched.available_seats r = None)
    /\ (forall e,
           get_infos detail <> [] ->
           get_available_seats_from_infos U (Some (get_infos detail)) = inl e ->
           enrich U get s = inl e)
    /\ (forall r,
           enrich U get s = inr r -> get_infos detail = [] ->
           get_available_seats_from_infos U (Some (get_infos s))
           = inr (Enriched.available_seats r)).
Proof.
  intros U get s detail Hf.
  rewrite (enrich_on_success U get s (Some detail) Hf).
  assert (Hseats : forall r,
             assemble U s (Some detail) = inr r ->
             get_available_seats_from_infos U
               (Some match get_infos detail with
                     | _ :: _ => get_infos detail
                     | [] => get_infos s
                     end) = inr (Enriched.available_seats r)).
  { intros r Hr.
    destruct (assemble_returns U s (Some detail) r Hr)
      as [d [f [loc [Hd [H _]]]]].
    now injection Hd as <-. }
  split; [|split; [|split]].
  - intros r Hr Hne. specialize (Hseats r Hr).
    now destruct (get_infos detail).
  - intros r Hr Hne Hn. specialize (Hseats r Hr).
    destruct (get_infos detail) as [|i l] eqn:E; [now elim Hne|].
    rewrite (seats_none_without_numbers U (i :: l) Hn) in Hseats.
    now injection Hseats as <-.
  - intros e Hne He. unfold assemble. cbn beta iota zeta delta [receiver bind].
    destruct (get_infos detail) as [|i l] eqn:E; [now elim Hne|].
    now rewrite He.
  - intros r Hr He. specialize (Hseats r Hr). now rewrite He in Hseats.
Qed.

Lemma detail_infos_shadow_the_summary_witness :
  get_available_seats_from_infos excerpt (Some (get_infos bsg_detail))
  = inr (Enriched.available_seats bsg_record).
Proof.
  apply (proj1 (detail_infos_shadow_the_summary excerpt detail_bsg_only bsg
                  bsg_detail eq_refl) bsg_record).
  - vm_compute. reflexivity.
  - discriminate.
Defined.

(** X14.  A site whose address has no region, or an empty one, or that has
    no address or no location at all, never passes the region test, with
    any tables: it gets no detail request and no record. *)
Theorem sites_without_region_are_dropped :
  forall U s a,
    site_address s = inr (Some a) ->
    truthy (region a) = false ->
    in_ile_de_france U s = inr false
    /\ forall sites libs, libraries_of U sites = inr libs -> ~ In s libs.
Proof.
  intros U s a Ha H.
  assert (Hr : in_ile_de_france U s = inr false).
  { unfold in_ile_de_france, site_region, py_or. rewrite Ha. simpl.
    destruct (region a) as [[|c t]|]; try discriminate; reflexivity. }
  split; [exact Hr|]. intros sites libs Hl Hin.
  apply (libraries_of_keeps U sites libs Hl) in Hin as [_ Hin].
  rewrite Hr in Hin. discriminate.
Qed.

Lemma sites_without_region_are_dropped_witness :
  in_ile_de_france excerpt (site 9 (lit "sans-adresse") Missing None) = inr false
  /\ forall sites libs,
       libraries_of excerpt sites = inr libs ->
       ~ In (site 9 (lit "sans-adresse") Missing None) libs.
Proof.
  apply (sites_without_region_are_dropped excerpt
           (site 9 (lit "sans-adresse") Missing None) empty_address).
  - reflexivity.
  - reflexivity.
Defined.

(** X18.  A detail reply with status 200 and no [data] key is not a
    failure: the record is built with the empty mapping for detail, so its
    seat count is read from the summary, and its occupancy and its
    [detail_url] are absent even when the summary has a forecast and a
    url, which a failed fetch would have kept. *)
Theorem detail_without_data_gives_bare_record :
  forall U get s body,
    get (site_key s) = Response 200 body (Some {| data := Missing |}) ->
    enrich U get s = assemble U s (Some empty_site)
    /\ forall r,
         enrich U get s = inr r ->
         get_available_seats_from_infos U (Some (get_infos s))
         = inr (Enriched.available_seats r)
         /\ Enriched.occupancy_percent r = None
         /\ Enriched.detail_url r = None.
Proof.
  intros U get s body H.
  assert (E : fetch_site_detail get (site_key s) = inr (Some empty_site))
    by (unfold fetch_site_detail; now rewrite H).
  rewrite (enrich_on_success U get s (Some empty_site) E).
  split; [reflexivity|]. intros r Hr.
  destruct (assemble_returns U s (Some empty_site) r Hr)
    as [d [f [loc [Hd [Hseats [Hf [Hocc [_ [_ [_ [_ [_ [_ Hurl]]]]]]]]]]]]].
  injection Hd as <-. simpl in Hf. injection Hf as <-.
  split; [exact Hseats|]. split; [exact Hocc | exact Hurl].
Qed.

Lemma detail_without_data_gives_bare_record_witness :
  enrich excerpt (fun _ => Response 200 (lit "{}") (Some {| data := Missing |}))
         bsg_detail
  = assemble excerpt bsg_detail (Some empty_site)
  /\ forall r,
       enrich excerpt (fun _ => Response 200 (lit "{}") (Some {| data := Missing |}))
              bsg_detail = inr r ->
       get_available_seats_from_infos excerpt (Some (get_infos bsg_detail))
       = inr (Enriched.available_seats r)
       /\ Enriched.occupancy_percent r = None
       /\ Enriched.detail_url r = None.
Proof.
  apply (detail_without_data_gives_bare_record excerpt
           (fun _ => Response 200 (lit "{}") (Some {| data := Missing |}))
           bsg_detail (lit "{}")).
  reflexivity.
Defined.

(** X19.  Every record of a run that returns has an address that is not
    null, because its site went through the region test; so the marker
    loop never raises [AttributeError] on the run's own records.  It
    raises only [TypeError], and exactly when a record with its two
    coordinates has an address whose route or city holds null. *)
Theorem markers_of_a_run_have_an_address :
  forall U post get fuel records,
    main U post get fuel = Returned records ->
    (forall r, In r records -> Enriched.address r <> None)
    /\ (forall e, markers records = inl e -> e = TypeError)
    /\ (markers records = inl TypeError <->
        exists r a,
          In r records
          /\ present (Enriched.latitude r) && present (Enriched.longitude r) = true
          /\ Enriched.address r = Some a
          /\ (route a = Null \/ city a = Null)).
Proof.
  intros U post get fuel records H.
  assert (Ha : forall r, In r records -> Enriched.address r <> None).
  { apply main_returns in H as [sites [libs [_ [Hl He]]]].
    apply enrich_all_returns in He. intros r Hr.
    destruct (record_has_site U get libs records r He Hr) as [s [Hs Hrs]].
    apply (libraries_of_keeps U sites libs Hl) in Hs as [_ Hk].
    now apply (kept_site_record_address U get s r). }
  assert (Hraise : forall e,
             markers records = inl e ->
             e = TypeError
             /\ exists r a,
                  In r records
                  /\ present (Enriched.latitude r)
                     && present (Enriched.longitude r) = true
                  /\ Enriched.address r = Some a
                  /\ (route a = Null \/ city a = Null)).
  { intros e He. destruct (markers_raises records e He) as [r [Hr Hm]].
    apply marker_of_raises in Hm as [Hp [[_ Hn] | [-> [a [Hs Hnull]]]]].
    - now elim (Ha r Hr).
    - split; [reflexivity|]. exists r, a. auto. }
  split; [exact Ha|]. split; [intros e He; exact (proj1 (Hraise e He))|]. split.
  - intros He. exact (proj2 (Hraise TypeError He)).
  - intros [r [a [Hr [Hp [Hs Hnull]]]]].
    assert (Hm : marker_of r = inl TypeError).
    { apply marker_of_raises. split; [exact Hp|]. right.
      split; [reflexivity|]. exists a. auto. }
    destruct (markers records) as [e|ms] eqn:E.
    + now rewrite (proj1 (Hraise e eq_refl)).
    + destruct (markers_returns records ms r E Hr) as [m Hm'].
      rewrite Hm in Hm'. discriminate.
Qed.

Lemma markers_of_a_run_have_an_address_witness :
  markers [unnamed_street] = inl TypeError.
Proof.
  apply (proj2 (proj2 (markers_of_a_run_have_an_address excerpt
                         (one_site rue) detail_down 2%nat [unnamed_street]
                         eq_refl))).
  exists unnamed_street, (Build_Address (region paris) Null (city paris)).
  split; [left; reflexivity|]. split; [reflexivity|].
  split; [reflexivity|]. left. reflexivity.
Defined.

(** X20.  What a site's turn raises is not caught: when the turns of the
    surviving sites before it return and its own raises, [main] raises
    that exception and returns no record.  A reply with status 200 whose
    [data] holds null is such a turn: the fetch succeeds and line 149
    raises. *)
Theorem a_raising_turn_aborts_the_run :
  (forall U post get fuel sites before s after e,
      fst (fetch_all_library_sites post fuel) = Returned sites ->
      libraries_of U sites = inr (before ++ s :: after) ->
      (forall s', In s' before -> exists r, enrich U get s' = inr r) ->
      enrich U get s = inl e ->
      main U post get fuel = Raised e)
  /\ (forall U get s body,
         get (site_key s) = Response 200 body (Some {| data := Null |}) ->
         enrich U get s = inl AttributeError).
Proof.
  split.
  - intros U post get fuel sites before s after e.
    apply main_raises_in_turn.
  - intros U get s body H. unfold enrich, fetch_site_detail. now rewrite H.
Qed.

Lemma a_raising_turn_aborts_the_run_witness :
  main excerpt
    (fun page => match page with
                 | 0%nat => ok_page [bsg; overlong; bpi]
                 | _ => ok_page []
                 end)
    detail_bsg_only 2 = Raised ValueError.
Proof.
  apply (proj1 a_raising_turn_aborts_the_run excerpt _ detail_bsg_only 2%nat
           [bsg; overlong; bpi] [bsg] overlong [bpi] ValueError).
  - reflexivity.
  - reflexivity.
  - intros s' [<- | []]. exists bsg_record. vm_compute. reflexivity.
  - now apply (enrich_overlong detail_bsg_only
                 (DetailRequestFailed (KeySlug (lit "overlong")) 500)).
Defined.

(** X21.  The region test of lines 129-131 raises on a site exactly when
    its [location] holds null or its [address] holds null, and then
    [AttributeError]; when the sites listed before it pass the test
    without raising, [main] raises it too, before any detail is
    requested. *)
Theorem null_location_aborts_the_run :
  (forall U s e,
      in_ile_de_france U s = inl e <->
      e = AttributeError
      /\ (location s = Null
          \/ exists loc, location s = Holds loc /\ address loc = Null))
  /\ (forall U post get fuel before s after e,
         fst (fetch_all_library_sites post fuel) = Returned (before ++ s :: after) ->
         (forall s', In s' before -> exists b, in_ile_de_france U s' = inr b) ->
         in_ile_de_france U s = inl e ->
         main U post get fuel = Raised e).
Proof.
  split.
  - apply in_ile_de_france_raises.
  - intros U post get fuel before s after e Hf Hb Hs.
    unfold main. rewrite Hf.
    now rewrite (libraries_of_raises U before s after e Hb Hs).
Qed.

Lemma null_location_aborts_the_run_witness :
  main excerpt
    (fun page => match page with
                 | 0%nat => ok_page [bsg; nowhere]
                 | _ => ok_page []
                 end)
    detail_bsg_only 2 = Raised AttributeError.
Proof.
  apply (proj2 null_location_aborts_the_run excerpt _ detail_bsg_only 2%nat
           [bsg] nowhere [] AttributeError).
  - reflexivity.
  - intros s' [<- | []]. exists true. vm_compute. reflexivity.
  - reflexivity.
Defined.

(** ** The map *)

Lemma markers_cons r rest ms :
  markers (r :: rest) = inr ms ->
  exists m ms',
    marker_of r = inr m /\ markers rest = inr ms'
    /\ ms = match m with
            | Some m => m :: ms'
            | None => ms'
            end.
Proof.
  simpl. intros H. apply bind_returns in H as [m [Hm H]].
  apply bind_returns in H as [ms' [Hms H]]. injection H as <-.
  exists m, ms'. auto.
Qed.

Lemma marker_of_returns r m :
  marker_of r = inr (Some m) ->
  Enriched.latitude r = Some (fst (Marker.location m))
  /\ Enriched.longitude r = Some (snd (Marker.location m))
  /\ Marker.detail_url m = marker_detail_url r.
Proof.
  unfold marker_of.
  destruct (Enriched.latitude r) as [lat|]; [|discriminate].
  destruct (Enriched.longitude r) as [lon|]; [|discriminate].
  intros H. apply bind_returns in H as [a [_ H]]. injection H as <-. auto.
Qed.

Lemma marker_of_skips r :
  marker_of r = inr None ->
  present (Enriched.latitude r) && present (Enriched.longitude r) = false.
Proof.
  unfold marker_of.
  destruct (Enriched.latitude r) as [lat|]; [|reflexivity].
  destruct (Enriched.longitude r) as [lon|]; [|reflexivity].
  intros H. apply bind_returns in H as [a [_ H]]. discriminate.
Qed.

Lemma coords_list_of_markers enriched : forall ms,
  markers enriched = inr ms ->
  coords_list enriched =
  filter (fun p => number_truthy (Some (fst p)) && number_truthy (Some (snd p)))
         (map Marker.location ms).
Proof.
  induction enriched as [|r rest IH]; intros ms H.
  - injection H as <-. reflexivity.
  - destruct (markers_cons r rest ms H) as [m [ms' [Hm [Hms ->]]]].
    specialize (IH ms' Hms). cbn [coords_list]. destruct m as [m|].
    + destruct (marker_of_returns r m Hm) as [Hlat [Hlon _]].
      rewrite Hlat, Hlon. cbn [map filter].
      destruct (number_truthy (Some (fst (Marker.location m)))
                && number_truthy (Some (snd (Marker.location m))));
        [f_equal; [now destruct (Marker.location m)|]|]; exact IH.
    + apply marker_of_skips in Hm.
      destruct (Enriched.latitude r) as [lat|]; [|exact IH].
      destruct (Enriched.longitude r) as [lon|]; [discriminate|].
      simpl. rewrite andb_false_r. exact IH.
Qed.

Lemma markers_length enriched : forall ms,
  markers enriched = inr ms ->
  (List.length ms <= List.length enriched)%nat.
Proof.
  induction enriched as [|r rest IH]; intros ms H.
  - injection H as <-. simpl. lia.
  - destruct (markers_cons r rest ms H) as [m [ms' [_ [Hms ->]]]].
    specialize (IH ms' Hms). destruct m; simpl; lia.
Qed.

Lemma markers_source enriched : forall ms m,
  markers enriched = inr ms ->
  In m ms ->
  exists r, In r enriched /\ marker_of r = inr (Some m).
Proof.
  induction enriched as [|r rest IH]; intros ms m H Hin.
  - injection H as <-. destruct Hin.
  - destruct (markers_cons r rest ms H) as [m' [ms' [Hm [Hms ->]]]].
    destruct m' as [m'|].
    + destruct Hin as [<- | Hin]; [exists r; split; [now left | exact Hm]|].
      destruct (IH ms' m Hms Hin) as [r' [Hr Hm']]. exists r'. split; [now right | exact Hm'].
    + destruct (IH ms' m Hms Hin) as [r' [Hr Hm']]. exists r'. split; [now right | exact Hm'].
Qed.

(** X15.  The centre and the markers are chosen by two different tests:
    the centre counts the records whose two coordinates are non-zero,
    the markers are the records whose two coordinates are present.  So the
    points of the centre are the markers' places off the equator and off
    the prime meridian, in order; there are never more of them than
    markers, nor more markers than records; and a record that lacks a
    coordinate has no marker. *)
Theorem centre_points_are_the_nonzero_markers :
  (forall enriched ms,
      markers enriched = inr ms ->
      coords_list enriched =
      filter (fun p => number_truthy (Some (fst p)) && number_truthy (Some (snd p)))
             (map Marker.location ms)
      /\ (List.length (coords_list enriched) <= List.length ms)%nat
      /\ (List.length ms <= List.length enriched)%nat)
  /\ (forall r,
         present (Enriched.latitude r) && present (Enriched.longitude r) = false ->
         markers [r] = inr []).
Proof.
  split.
  - intros enriched ms H. split; [now apply coords_list_of_markers|]. split.
    + rewrite (coords_list_of_markers enriched ms H).
      etransitivity; [apply filter_length_le|]. now rewrite length_map.
    + now apply markers_length.
  - intros r H. simpl. unfold marker_of.
    destruct (Enriched.latitude r); [|reflexivity].
    now destruct (Enriched.longitude r).
Qed.

Lemma centre_points_are_the_nonzero_markers_witness :
  markers [bpi_record] = inr [].
Proof.
  apply (proj2 centre_points_are_the_nonzero_markers bpi_record).
  reflexivity.
Defined.



(** X17.  The link of a marker is never empty: it is the record's
    [detail_url] when that is a non-empty string, and otherwise the site
    address built from the slug. *)
Theorem marker_link_is_never_empty :
  forall enriched ms m,
    markers enriched = inr ms ->
    In m ms ->
    Marker.detail_url m <> []
    /\ exists r, In r enriched
                 /\ marker_of r = inr (Some m)
                 /\ (truthy (Enriched.detail_url r) = true ->
                     Some (Marker.detail_url m) = Enriched.detail_url r)
                 /\ (truthy (Enriched.detail_url r) = false ->
                     Marker.detail_url m =
                     lit "https://affluences.com/site/" ++ str_slug (Enriched.slug r)).
Proof.
  intros enriched ms m Hms Hm.
  destruct (markers_source enriched ms m Hms Hm) as [r [Hr Hmr]].
  destruct (marker_of_returns r m Hmr) as [_ [_ Hurl]].
  rewrite Hurl. unfold marker_detail_url. split.
  - destruct (Enriched.detail_url r) as [[|c t]|]; simpl; discriminate.
  - exists r. split; [exact Hr|]. split; [exact Hmr|].
    destruct (Enriched.detail_url r) as [[|c t]|]; simpl; split;
      intros H; try discriminate; reflexivity.
Qed.

Lemma marker_link_is_never_empty_witness :
  Marker.detail_url bsg_marker <> []
  /\ exists r, In r [bsg_record]
               /\ marker_of r = inr (Some bsg_marker)
               /\ (truthy (Enriched.detail_url r) = true ->
                   Some (Marker.detail_url bsg_marker) = Enriched.detail_url r)
               /\ (truthy (Enriched.detail_url r) = false ->
                   Marker.detail_url bsg_marker =
                   lit "https://affluences.com/site/" ++ str_slug (Enriched.slug r)).
Proof.
  apply (marker_link_is_never_empty [bsg_record] [bsg_marker] bsg_marker).
  - reflexivity.
  - left. reflexivity.
Defined.
